(** * Custom state-space examples of statsmodels: local linear trend,
      seasonal simulation and moving average

    Shallow embedding of
    - [examples/python/statespace_local_linear_trend.py]
      (class [LocalLinearTrend]: constructor, [param_names], [start_params],
      [transform_params], [untransform_params], [update]),
    - [examples/python/statespace_seasonal.py]
      (function [simulate_seasonal_term] and the cell that builds the
      synthetic data with it) and
    - [examples/python/recursive_ls.py] (function [ewma]),
    with their properties.

    Numbers are the numbers the scripts compute with: numpy [float64] is IEEE
    754 binary64, taken from the specification of floating-point arithmetic
    ([SpecFloat], precision 53, [emax] 1024, rounding to nearest even);
    Python [int] is [Z]. Arrays are lists, the state-space matrices (all
    time-invariant here) lists of rows. Python exceptions are values of an
    error type, and code that mutates an object or draws random numbers
    passes the state along.

    What the scripts call in numpy and in the library itself
    ([statsmodels.tsa.statespace]) is not part of the files: [np.cos],
    [np.sin], [np.sum], [np.std], [**] and the random generator are
    parameters, and the base class and its representation are modelled by
    what the scripts rely on. numpy refuses the arrays it has no size for
    ([Numpy.max_entries]); running out of memory on a smaller array
    depends on the machine and is not modelled. *)

From Stdlib Require Import ZArith Lia Bool.
From Stdlib Require Import Floats.SpecFloat.
From stdpp Require Import base list strings.

Local Open Scope Z_scope.

(* ===================================================================== *)
(** ** numpy [float64] *)
(* ===================================================================== *)

Module Float64.

Definition prec : Z := 53.
Definition emax : Z := 1024.

(** A [float64] value; the values an array holds satisfy [is_float64]. *)
Definition float64 : Type := spec_float.

Definition is_float64 (x : float64) : bool := valid_binary prec emax x.

Definition mul : float64 -> float64 -> float64 := SFmul prec emax.
Definition add : float64 -> float64 -> float64 := SFadd prec emax.
Definition sub : float64 -> float64 -> float64 := SFsub prec emax.
Definition div : float64 -> float64 -> float64 := SFdiv prec emax.
Definition sqrt : float64 -> float64 := SFsqrt prec emax.
Definition neg : float64 -> float64 := SFopp.
Definition abs : float64 -> float64 := SFabs.

(** [x <= y], [x < y] and [x == y] on floats: all false on NaN. *)
Definition leb : float64 -> float64 -> bool := SFleb.
Definition ltb : float64 -> float64 -> bool := SFltb.
Definition eqb : float64 -> float64 -> bool := SFeqb.

(** The float nearest to [m * 2^e] (ties to even), infinite on overflow. *)
Definition of_scaled (m e : Z) : float64 := binary_normalize prec emax m e false.

(** The float nearest to the integer [z]. *)
Definition of_Z (z : Z) : float64 := of_scaled z 0.

Definition zero : float64 := S754_zero false.
Definition one : float64 := Eval cbv in of_Z 1.
Definition two : float64 := Eval cbv in of_Z 2.
Definition nan : float64 := S754_nan.
Definition inf : float64 := S754_infinity false.

(** [np.pi], the double [0x400921FB54442D18]. *)
Definition pi : float64 := S754_finite false 7074237752028440 (-51).

Definition is_nan (x : float64) : bool :=
  match x with S754_nan => true | _ => false end.

Definition is_zero (x : float64) : bool :=
  match x with S754_zero _ => true | _ => false end.

Definition is_finite (x : float64) : bool :=
  match x with S754_zero _ | S754_finite _ _ _ => true | _ => false end.

Definition is_inf (x : float64) : bool :=
  match x with S754_infinity _ => true | _ => false end.

(** The sign bit is clear and the value is a number: [+0], a positive
    finite number or [+inf]. *)
Definition is_nonneg (x : float64) : bool :=
  match x with
  | S754_zero false | S754_finite false _ _ | S754_infinity false => true
  | _ => false
  end.

(** [x] is a normal number whose square is again in the normal range and
    finite: [2^-511 <= |x| < 2^512]. *)
Definition square_in_range (x : float64) : bool :=
  match x with
  | S754_finite _ m e =>
      (Z.pos (digits2_pos m) =? prec) && (-563 <=? e) && (e <=? 459)
  | _ => false
  end.

(** The numbers on which squaring followed by the square root is exact:
    zeros, infinities and the normal numbers of [square_in_range]. *)
Definition roundtrip_safe (x : float64) : bool :=
  square_in_range x || is_zero x || is_inf x.

(** The exact value of a finite float is an integer. *)
Definition is_integral (x : float64) : bool :=
  match x with
  | S754_zero _ => true
  | S754_finite _ m e => (0 <=? e) || (Z.pos m mod 2 ^ (- e) =? 0)
  | _ => false
  end.

(** The integer part of a finite float, rounding toward zero
    (0 on the values that have none). *)
Definition trunc (x : float64) : Z :=
  match x with
  | S754_finite s m e =>
      cond_Zopp s (if 0 <=? e then Z.pos m * 2 ^ e else Z.pos m / 2 ^ (- e))
  | _ => 0
  end.

(** Exact comparison of a float with an integer, as Python's [==] does it
    between a [float] and an [int]. *)
Definition eqb_Z (x : float64) (z : Z) : bool :=
  match x with
  | S754_zero _ => z =? 0
  | S754_finite s m e =>
      if 0 <=? e then cond_Zopp s (Z.pos m * 2 ^ e) =? z
      else cond_Zopp s (Z.pos m) =? z * 2 ^ (- e)
  | _ => false
  end.

(** [np.floor]: the largest integral float not above [x]; zeros, NaN and
    infinities are returned as they are. *)
Definition floor (x : float64) : float64 :=
  match x with
  | S754_finite s m e =>
      if 0 <=? e then x
      else
        let q := Z.pos m / 2 ^ (- e) in
        let r := Z.pos m mod 2 ^ (- e) in
        if s then binary_normalize prec emax (- (if r =? 0 then q else q + 1)) 0 true
        else binary_normalize prec emax q 0 false
  | _ => x
  end.

End Float64.

Import Float64.

(* ===================================================================== *)
(** ** Python values, exceptions and effects *)
(* ===================================================================== *)

Module Py.

(** The exceptions the two scripts can raise. *)
Inductive exn : Type :=
| AssertionError
| ValueError
| OverflowError
| ZeroDivisionError
| TypeError
| IndexError.

Inductive result (A : Type) : Type :=
| Ok (a : A)
| Raise (e : exn).
Arguments Ok {A} a.
Arguments Raise {A} e.

Definition rbind {A B : Type} (r : result A) (k : A -> result B) : result B :=
  match r with
  | Ok a => k a
  | Raise e => Raise e
  end.

(** Code that reads and writes a state of type [S] and may raise: the state
    at the point of the exception is kept, as an object mutated before an
    exception stays mutated. *)
Definition M (S A : Type) : Type := S -> S * result A.

Definition ret {S A : Type} (a : A) : M S A := fun s => (s, Ok a).

Definition raise {S A : Type} (e : exn) : M S A := fun s => (s, Raise e).

Definition bind {S A B : Type} (m : M S A) (k : A -> M S B) : M S B :=
  fun s =>
    match m s with
    | (s', Ok a) => k a s'
    | (s', Raise e) => (s', Raise e)
    end.

(** A computation that raises or returns without touching the state. *)
Definition lift {S A : Type} (r : result A) : M S A := fun s => (s, r).

(** [m] never raises the exception [e], from any state. *)
Definition never_raises {S A : Type} (e : exn) (m : M S A) : Prop :=
  forall s, snd (m s) <> Raise e.

(** A Python number: an [int] or a [float]. *)
Inductive pynum : Type :=
| PyInt (z : Z)
| PyFloat (f : float64).

(** [float(x)]: an [int] too large for a double raises [OverflowError]. *)
Definition py_float (x : pynum) : result float64 :=
  match x with
  | PyFloat f => Ok f
  | PyInt z =>
      let f := of_Z z in
      if is_finite f then Ok f else Raise OverflowError
  end.

(** [int(x)]: truncation toward zero; NaN raises [ValueError], an infinity
    raises [OverflowError]. *)
Definition py_int (x : pynum) : result Z :=
  match x with
  | PyInt z => Ok z
  | PyFloat S754_nan => Raise ValueError
  | PyFloat (S754_infinity _) => Raise OverflowError
  | PyFloat f => Ok (trunc f)
  end.

(** [x * y]: exact on two [int]s; otherwise the [int] operand is converted
    by [float] and the product is the binary64 product. *)
Definition py_mul (x y : pynum) : result pynum :=
  match x, y with
  | PyInt a, PyInt b => Ok (PyInt (a * b))
  | _, _ =>
      rbind (py_float x) (fun fx =>
      rbind (py_float y) (fun fy =>
      Ok (PyFloat (mul fx fy))))
  end.

(** [x == z] for an [int] [z]: exact, also when [x] is a [float]. *)
Definition py_eq_int (x : pynum) (z : Z) : bool :=
  match x with
  | PyInt a => a =? z
  | PyFloat f => eqb_Z f z
  end.

(** The integer a number is equal to, if it is equal to one: an [int], or
    a finite [float] whose value is integral. *)
Definition integer_value (x : pynum) : option Z :=
  match x with
  | PyInt z => Some z
  | PyFloat f => if is_finite f && is_integral f then Some (trunc f) else None
  end.

(** Truth value of a number: false exactly on [0], [0.0] and [-0.0]. *)
Definition py_truthy (x : pynum) : bool :=
  match x with
  | PyInt z => negb (z =? 0)
  | PyFloat f => negb (is_zero f)
  end.

(** A positive number below [2^1023]: an [int], or a finite [float]. *)
Definition py_positive (x : pynum) : bool :=
  match x with
  | PyInt z => (0 <? z) && (z <? 2 ^ 1023)
  | PyFloat (S754_finite false m e) => Z.pos (digits2_pos m) + e <=? 1023
  | PyFloat _ => false
  end.

(** [x / 2]: the correctly rounded quotient; an [int] whose half is too
    large for a double raises [OverflowError]. *)
Definition py_truediv_2 (x : pynum) : result float64 :=
  match x with
  | PyFloat f => Ok (div f two)
  | PyInt z =>
      let f := of_scaled z (-1) in
      if is_finite f then Ok f else Raise OverflowError
  end.

(** [a / b] on two [float]s: a zero divisor raises [ZeroDivisionError]. *)
Definition py_float_div (a b : float64) : result float64 :=
  if is_zero b then Raise ZeroDivisionError else Ok (div a b).

(** [l[start:]] on a sequence, for any integer [start]. *)
Definition py_slice_from {A : Type} (start : Z) (l : list A) : list A :=
  let n := Z.of_nat (length l) in
  let i := if start <? 0 then Z.max (n + start) 0 else Z.min start n in
  drop (Z.to_nat i) l.

End Py.

Import Py.

Declare Scope py_scope.
Delimit Scope py_scope with py.
Notation "'let*' x ':=' m 'in' k" := (Py.bind m (fun x => k))
  (at level 10, x name, m at level 100, k at level 200) : py_scope.
Notation "'let*' ' p ':=' m 'in' k" := (Py.bind m (fun p => k))
  (at level 10, p strict pattern, m at level 100, k at level 200) : py_scope.
Notation "'do' m 'in' k" := (Py.bind m (fun _ => k))
  (at level 10, m at level 100, k at level 200) : py_scope.

Local Open Scope py_scope.

(** [l[i]] and [l[i] = v] on a Python sequence or a one-dimensional array,
    for an index that is not negative. *)
Definition getitem {S A : Type} (l : list A) (i : nat) : M S A :=
  match l !! i with
  | Some a => ret a
  | None => raise IndexError
  end.

Definition setitem {S A : Type} (l : list A) (i : nat) (v : A) : M S (list A) :=
  if (i <? length l)%nat then ret (<[i := v]> l) else raise IndexError.

(* ===================================================================== *)
(** ** numpy routines on arrays *)
(* ===================================================================== *)

Module Numpy.

(** The largest array numpy builds: the size of an array in bytes must fit
    a signed 64-bit integer, so an array of 8-byte entries ([float64],
    [int64]) of [2^60] entries or more is refused with [ValueError]. A
    smaller array that the machine cannot hold raises [MemoryError]; that
    depends on the machine and is not modelled, and the theorems that
    assert a normal return are stated for small sizes: at most [2^20]
    harmonics, time steps or entries on a side of a window. *)
Definition max_entries : Z := 2 ^ 60.

(** Eight running sums, each increased by the entry of its place in every
    further full block of eight entries of [a]; with them, the entries
    left over. *)
Fixpoint add_blocks (r a : list float64) (blocks : nat) : list float64 * list float64 :=
  match blocks with
  | O => (r, a)
  | S b => add_blocks (zip_with add r (take 8 a)) (drop 8 a) b
  end.

(** The sum of 8 to 128 entries: eight running sums over the full blocks
    of eight, added as a tree, then the entries left over one by one. *)
Definition sum_unrolled (a : list float64) : float64 :=
  let '(r, rest) := add_blocks (take 8 a) (drop 8 a) (length a / 8 - 1)%nat in
  match r with
  | [r0; r1; r2; r3; r4; r5; r6; r7] =>
      foldl add (add (add (add r0 r1) (add r2 r3)) (add (add r4 r5) (add r6 r7))) rest
  | _ => nan
  end.

(** The pairwise sum of 8 entries or more: more than 128 entries are cut in
    two halves, the first a multiple of eight, summed apart. *)
Fixpoint pairwise_sum (fuel : nat) (a : list float64) : float64 :=
  match fuel with
  | O => sum_unrolled a
  | S fuel' =>
      if (length a <=? 128)%nat then sum_unrolled a
      else
        let n2 := (length a / 2 - (length a / 2) mod 8)%nat in
        add (pairwise_sum fuel' (take n2 a)) (pairwise_sum fuel' (drop n2 a))
  end.

(** [np.sum] of a one-dimensional array: fewer than 8 entries are added
    from left to right, 8 or more pairwise. (Of the sums that are zero,
    the sign is that of this order of additions.) *)
Definition sum (a : list float64) : float64 :=
  match a with
  | [] => zero
  | x :: l => if (length a <? 8)%nat then foldl add x l else pairwise_sum (length a) a
  end.

(** [np.std] with its default [ddof=0]: the square root of the mean of
    the squared deviations from the mean (two passes); NaN on an empty
    array. *)
Definition std (a : list float64) : float64 :=
  let n := of_Z (Z.of_nat (length a)) in
  let arrmean := div (sum a) n in
  let x := (fun v => sub v arrmean) <$> a in
  let x := (fun v => mul v v) <$> x in
  sqrt (div (sum x) n).

End Numpy.

(* ===================================================================== *)
(** ** The state-space representation of the library *)
(* ===================================================================== *)

Module StateSpace.

(** A time-invariant matrix, by rows. *)
Definition matrix : Type := list (list float64).

(** [np.zeros((r, c))] and [np.eye(n)]. *)
Definition zeros (r c : nat) : matrix := replicate r (replicate c zero).

Definition eye (n : nat) : matrix :=
  (fun i => (fun j => if (i =? j)%nat then one else zero) <$> seq 0 n) <$> seq 0 n.

(** [np.diag_indices(n)]: the row and the column indices of the diagonal. *)
Definition diag_indices (n : nat) : list nat * list nat := (seq 0 n, seq 0 n).

(** The names of the matrices of a representation. *)
Inductive matrix_name : Type :=
| obs_intercept | design | obs_cov
| state_intercept | transition | selection | state_cov.

#[global] Instance matrix_name_eq_dec : EqDecision matrix_name.
Proof. solve_decision. Defined.

Record Representation : Type := {
  _obs_intercept : matrix;
  _design : matrix;
  _obs_cov : matrix;
  _state_intercept : matrix;
  _transition : matrix;
  _selection : matrix;
  _state_cov : matrix
}.

Definition get_matrix (name : matrix_name) (r : Representation) : matrix :=
  match name with
  | obs_intercept => _obs_intercept r
  | design => _design r
  | obs_cov => _obs_cov r
  | state_intercept => _state_intercept r
  | transition => _transition r
  | selection => _selection r
  | state_cov => _state_cov r
  end.

Definition set_matrix (name : matrix_name) (m : matrix) (r : Representation) : Representation :=
  match name with
  | obs_intercept =>
      Build_Representation m (_design r) (_obs_cov r) (_state_intercept r)
        (_transition r) (_selection r) (_state_cov r)
  | design =>
      Build_Representation (_obs_intercept r) m (_obs_cov r) (_state_intercept r)
        (_transition r) (_selection r) (_state_cov r)
  | obs_cov =>
      Build_Representation (_obs_intercept r) (_design r) m (_state_intercept r)
        (_transition r) (_selection r) (_state_cov r)
  | state_intercept =>
      Build_Representation (_obs_intercept r) (_design r) (_obs_cov r) m
        (_transition r) (_selection r) (_state_cov r)
  | transition =>
      Build_Representation (_obs_intercept r) (_design r) (_obs_cov r)
        (_state_intercept r) m (_selection r) (_state_cov r)
  | selection =>
      Build_Representation (_obs_intercept r) (_design r) (_obs_cov r)
        (_state_intercept r) (_transition r) m (_state_cov r)
  | state_cov =>
      Build_Representation (_obs_intercept r) (_design r) (_obs_cov r)
        (_state_intercept r) (_transition r) (_selection r) m
  end.

(** The shape of a matrix, when all its rows have one length. *)
Definition shape (m : matrix) : nat * nat :=
  (length m, match m with [] => 0%nat | row :: _ => length row end).

Definition same_shape (a b : matrix) : bool :=
  ((shape a).1 =? (shape b).1)%nat && ((shape a).2 =? (shape b).2)%nat.

(** Modelled from the spec: the representation class of the library is not
    among the source files. A new representation has "all state space
    matrices set to zeros" (source comment, item 3), with the shapes that
    the numbers of observed series, of states and of state shocks give. *)
Definition new_representation (k_endog k_states k_posdef : nat) : Representation :=
  {| _obs_intercept := zeros k_endog 1;
     _design := zeros k_endog k_states;
     _obs_cov := zeros k_endog k_endog;
     _state_intercept := zeros k_states 1;
     _transition := zeros k_states k_states;
     _selection := zeros k_states k_posdef;
     _state_cov := zeros k_posdef k_posdef |}.

(** Modelled from the spec: [ssm[name] = value], assignment of a whole
    matrix ("set the observation-selection row to (1, 0), the transition
    matrix to ..."); the library refuses a value of another shape with
    [ValueError]. *)
Definition setitem_matrix (name : matrix_name) (value : matrix) : M Representation unit :=
  fun r =>
    if same_shape value (get_matrix name r)
    then (set_matrix name value r, Ok tt)
    else (r, Raise ValueError).

(** One cell of a matrix. *)
Definition set_cell (m : matrix) (i j : nat) (v : float64) : result matrix :=
  match m !! i with
  | Some row =>
      if (j <? length row)%nat then Ok (<[i := <[j := v]> row]> m)
      else Raise IndexError
  | None => Raise IndexError
  end.

(** Modelled from the spec: [ssm[name, i, j] = v], "write the first entry
    into the (0,0) cell of the observation-noise covariance matrix". *)
Definition setitem_cell (name : matrix_name) (i j : nat) (v : float64) : M Representation unit :=
  fun r =>
    match set_cell (get_matrix name r) i j v with
    | Ok m => (set_matrix name m r, Ok tt)
    | Raise e => (r, Raise e)
    end.

(** numpy's broadcasting of a one-dimensional value to [n] cells: a value of
    [n] entries is taken as it is, a value of one entry is repeated, any
    other length raises [ValueError]. *)
Definition broadcast (n : nat) (values : list float64) : result (list float64) :=
  if (length values =? n)%nat then Ok values
  else match values with
       | [v] => Ok (replicate n v)
       | _ => Raise ValueError
       end.

Fixpoint set_cells (m : matrix) (cells : list (nat * nat * float64)) : result matrix :=
  match cells with
  | [] => Ok m
  | (i, j, v) :: rest => rbind (set_cell m i j v) (fun m' => set_cells m' rest)
  end.

(** Modelled from the spec: [ssm[name, rows, cols] = values] with two index
    arrays, the cells [(rows[k], cols[k])] ("write the second and third
    entries into the diagonal of the 2x2 state-noise covariance matrix").
    The matrix is replaced only when the whole assignment succeeds. *)
Definition setitem_index (key : matrix_name * (list nat * list nat))
    (values : list float64) : M Representation unit :=
  fun r =>
    let '(name, (rows, cols)) := key in
    let cells := zip rows cols in
    match rbind (broadcast (length cells) values)
            (fun vs => set_cells (get_matrix name r) (zip cells vs)) with
    | Ok m => (set_matrix name m r, Ok tt)
    | Raise e => (r, Raise e)
    end.

(** How the distribution of the initial state is chosen. *)
Inductive initialization_policy : Type :=
| known
| stationary
| approximate_diffuse
| diffuse.

(** The base class of maximum-likelihood state-space models. *)
Record MLEModel : Type := {
  endog : list float64;
  k_endog : nat;
  k_states : nat;
  k_posdef : nat;
  initialization : option initialization_policy;
  loglikelihood_burn : nat;
  ssm : Representation
}.

Definition with_ssm (r : Representation) (self : MLEModel) : MLEModel :=
  {| endog := endog self; k_endog := k_endog self; k_states := k_states self;
     k_posdef := k_posdef self; initialization := initialization self;
     loglikelihood_burn := loglikelihood_burn self; ssm := r |}.

(** Modelled from the spec: [MLEModel.__init__(endog, k_states, k_posdef,
    initialization, loglikelihood_burn)], the constructor of the base
    class, which is not among the source files: it keeps the observed
    (univariate) series, the dimensions, the initialization policy and the
    burn-in it is given and creates the representation. *)
Definition MLEModel_init (endog : list float64) (k_states k_posdef : nat)
    (initialization : option initialization_policy) (loglikelihood_burn : nat) : MLEModel :=
  {| endog := endog; k_endog := 1; k_states := k_states; k_posdef := k_posdef;
     initialization := initialization; loglikelihood_burn := loglikelihood_burn;
     ssm := new_representation 1 k_states k_posdef |}.

(** Modelled from the spec: [MLEModel.update(params, transformed=True)] of
    the base class: "each proposal is validated/transformed (squared, to
    guarantee non-negativity) before being written into the covariance
    matrices"; a vector that is already constrained is returned as it is. *)
Definition MLEModel_update (transform_params : list float64 -> list float64)
    (params : list float64) (transformed : bool) : list float64 :=
  if transformed then params else transform_params params.

End StateSpace.

Import StateSpace.

(* ===================================================================== *)
(** ** [class LocalLinearTrend(sm.tsa.statespace.MLEModel)] *)
(* ===================================================================== *)

Module LocalLinearTrend.

(** An instance: the fields of the base class and the cached index. *)
Record t : Type := {
  base : MLEModel;
  _state_cov_idx : matrix_name * (list nat * list nat)
}.

(** [self.ssm[...] = ...]: an assignment into the representation of the
    model. *)
Definition on_ssm {A : Type} (m : M Representation A) : M t A :=
  fun self =>
    let '(r, a) := m (ssm (base self)) in
    ({| base := with_ssm r (base self); _state_cov_idx := _state_cov_idx self |}, a).

(** [__init__(self, endog)]. The integer arrays [np.array([1, 0])] and
    [np.array([[1, 1], [0, 1]])] are stored with the entries [1.0] and
    [0.0]; the one-dimensional design is the single row of a 1x2 matrix. *)
Definition __init__ (endog : list float64) : result t :=
  (* Model order *)
  let k_states := 2%nat in
  let k_posdef := 2%nat in
  (* Initialize the statespace; the cached index is set last, below *)
  let self :=
    {| base := MLEModel_init endog k_states k_posdef
                 (Some approximate_diffuse) k_states;
       _state_cov_idx := (state_cov, ([], [])) |} in
  (* Initialize the matrices *)
  let body : M t unit :=
    do on_ssm (setitem_matrix design [[one; zero]]) in
    do on_ssm (setitem_matrix transition [[one; one]; [zero; one]]) in
    do on_ssm (setitem_matrix selection (eye k_states)) in
    (* Cache some indices *)
    fun self =>
      ({| base := base self;
          _state_cov_idx := (state_cov, diag_indices k_posdef) |}, Ok tt) in
  match body self with
  | (self', Ok _) => Ok self'
  | (_, Raise e) => Raise e
  end.

Definition param_names : list string :=
  ["sigma2.measurement"; "sigma2.level"; "sigma2.trend"]%string.

(** [start_params]: [[np.std(self.endog)] * 3], for the function [np_std]
    that numpy provides. *)
Definition start_params (np_std : list float64 -> float64) (self : t) : list float64 :=
  replicate 3 (np_std (endog (base self))).

(** [unconstrained**2] on a float array: each entry times itself. *)
Definition transform_params (unconstrained : list float64) : list float64 :=
  (fun x => mul x x) <$> unconstrained.

(** [constrained**0.5] on a float array: numpy takes the exponent [0.5] as
    the square root of each entry. *)
Definition untransform_params (constrained : list float64) : list float64 :=
  sqrt <$> constrained.

(** [update(self, params, *args, **kwargs)]; of the optional arguments,
    [transformed] (default [True]) is the one the base class acts on. *)
Definition update (params : list float64) (transformed : bool) : M t unit :=
  let params := MLEModel_update transform_params params transformed in
  (* Observation covariance *)
  let* p0 := getitem params 0 in
  do on_ssm (setitem_cell obs_cov 0 0 p0) in
  (* State covariance *)
  fun self => on_ssm (setitem_index (_state_cov_idx self) (drop 1 params)) self.

(** [update(params)] with the default [transformed=True]. *)
Definition update_default (params : list float64) : M t unit := update params true.

(** A sequence of calls of [update], each with its own arguments; a call
    that raises leaves the model as it was at the exception, and the
    caller goes on with the next call. *)
Definition updates (calls : list (list float64 * bool)) (self : t) : t :=
  foldl (fun m call => fst (update call.1 call.2 m)) self calls.

(** The matrices of a model, by name. *)
Definition matrix_of (name : matrix_name) (self : t) : matrix :=
  get_matrix name (ssm (base self)).

(** The cell [(i, j)] of a matrix, when there is one. *)
Definition cell (m : matrix) (i j : nat) : option float64 :=
  match m !! i with
  | Some row => row !! j
  | None => None
  end.

(** What every instance satisfies once [__init__] has run: the cached
    index names the diagonal of the 2x2 state covariance. *)
Definition class_invariant (self : t) : Prop :=
  _state_cov_idx self = (state_cov, diag_indices 2).

(** The model [__init__] builds, written out. *)
Definition constructed (endog : list float64) : t :=
  {| base :=
       {| StateSpace.endog := endog; k_endog := 1; k_states := 2; k_posdef := 2;
          initialization := Some approximate_diffuse; loglikelihood_burn := 2;
          ssm :=
            {| _obs_intercept := [[zero]];
               _design := [[one; zero]];
               _obs_cov := [[zero]];
               _state_intercept := [[zero]; [zero]];
               _transition := [[one; one]; [zero; one]];
               _selection := [[one; zero]; [zero; one]];
               _state_cov := [[zero; zero]; [zero; zero]] |} |};
     _state_cov_idx := (state_cov, ([0; 1], [0; 1]))%nat |}.

End LocalLinearTrend.

(* ===================================================================== *)
(** ** [simulate_seasonal_term] *)
(* ===================================================================== *)

Module Seasonal.

Section Simulate.

(** The state of numpy's global random generator and one draw
    [np.random.randn()] from it. *)
Context {rng : Type}.
Variable randn1 : rng -> float64 * rng.

(** [np.cos], [np.sin] and [np.sum] of numpy. *)
Variables np_cos np_sin : float64 -> float64.
Variable np_sum : list float64 -> float64.

Definition draw : M rng float64 :=
  fun g => let '(x, g') := randn1 g in (g', Ok x).

Fixpoint draws (n : nat) : M rng (list float64) :=
  match n with
  | O => ret []
  | S n' =>
      let* x := draw in
      let* xs := draws n' in
      ret (x :: xs)
  end.

(** [np.random.randn(n)]: a [float] size is a [TypeError]; a negative
    size, and one numpy builds no array of, a [ValueError] before anything
    is drawn. *)
Definition randn (n : pynum) : M rng (list float64) :=
  match n with
  | PyFloat _ => raise TypeError
  | PyInt z =>
      if z <? 0 then raise ValueError
      else if Numpy.max_entries <=? z then raise ValueError
      else draws (Z.to_nat z)
  end.

(** [np.zeros(n)] for an [int] [n]: a negative size, and one numpy builds
    no array of, is a [ValueError]. *)
Definition np_zeros {S : Type} (n : Z) : M S (list float64) :=
  if n <? 0 then raise ValueError
  else if Numpy.max_entries <=? n then raise ValueError
  else ret (replicate (Z.to_nat n) zero).

(** [range(a, b)] for an [int] [a]; a [float] bound is a [TypeError]. *)
Definition py_range {S : Type} (a : Z) (b : pynum) : M S (list Z) :=
  match b with
  | PyFloat _ => raise TypeError
  | PyInt z => ret ((fun k => a + Z.of_nat k) <$> seq 0 (Z.to_nat (z - a)))
  end.

(** [x + 1] on a number. *)
Definition py_succ (x : pynum) : pynum :=
  match x with
  | PyInt z => PyInt (z + 1)
  | PyFloat f => PyFloat (add f one)
  end.

(** [for x in l: body], threading the loop variables [acc]. *)
Fixpoint for_each {S A B : Type} (l : list A) (body : B -> A -> M S B) (acc : B) : M S B :=
  match l with
  | [] => ret acc
  | x :: l' =>
      let* acc' := body acc x in
      for_each l' body acc'
  end.

(** [harmonics if harmonics else int(np.floor(periodicity / 2))]. *)
Definition resolve_harmonics (periodicity : pynum) (harmonics : option pynum) : result pynum :=
  match harmonics with
  | Some h =>
      if py_truthy h then Ok h
      else rbind (py_truediv_2 periodicity) (fun half =>
           rbind (py_int (PyFloat (floor half))) (fun n => Ok (PyInt n)))
  | None =>
      rbind (py_truediv_2 periodicity) (fun half =>
      rbind (py_int (PyFloat (floor half))) (fun n => Ok (PyInt n)))
  end.

(** The body of the loop over [j]: one harmonic advanced by one step. *)
Definition harmonic_step (lambda_p noise_std : float64) (gamma_jt gamma_star_jt : list float64)
    (acc : list float64 * list float64) (j : Z) : M rng (list float64 * list float64) :=
  let '(gamma_jtp1, gamma_star_jtp1) := acc in
  let* fj := lift (py_float (PyInt j)) in
  let cos_j := np_cos (mul lambda_p fj) in
  let sin_j := np_sin (mul lambda_p fj) in
  let i := Z.to_nat (j - 1) in
  let* a := getitem gamma_jt i in
  let* b := getitem gamma_star_jt i in
  let* e := draw in
  let* gamma_jtp1 :=
    setitem gamma_jtp1 i (add (add (mul a cos_j) (mul b sin_j)) (mul noise_std e)) in
  let* a := getitem gamma_jt i in
  let* b := getitem gamma_star_jt i in
  let* e := draw in
  let* gamma_star_jtp1 :=
    setitem gamma_star_jtp1 i (add (add (mul (neg a) sin_j) (mul b cos_j)) (mul noise_std e)) in
  ret (gamma_jtp1, gamma_star_jtp1).

(** The body of the loop over [t]: all harmonics advanced by one step and
    their sum stored in [series[t]]. *)
Definition time_step (lambda_p noise_std : float64) (harmonics : pynum)
    (acc : list float64 * list float64 * list float64) (t : Z)
    : M rng (list float64 * list float64 * list float64) :=
  let '(gamma_jt, gamma_star_jt, series) := acc in
  let gamma_jtp1 := replicate (length gamma_jt) zero in
  let gamma_star_jtp1 := replicate (length gamma_star_jt) zero in
  let* js := py_range 1 (py_succ harmonics) in
  let* '(gamma_jtp1, gamma_star_jtp1) :=
    for_each js (harmonic_step lambda_p noise_std gamma_jt gamma_star_jt)
      (gamma_jtp1, gamma_star_jtp1) in
  let* series := setitem series (Z.to_nat t) (np_sum gamma_jtp1) in
  ret (gamma_jtp1, gamma_star_jtp1, series).

Definition simulate_seasonal_term (periodicity total_cycles : pynum)
    (noise_std : float64) (harmonics : option pynum) : M rng (list float64) :=
  let* duration := lift (py_mul periodicity total_cycles) in
  let* d := lift (py_int duration) in
  do (if py_eq_int duration d then ret tt else raise AssertionError) in
  let duration := d in
  let* harmonics := lift (resolve_harmonics periodicity harmonics) in
  let* fp := lift (py_float periodicity) in
  let* lambda_p := lift (py_float_div (mul two pi) fp) in
  let* gamma_jt := randn harmonics in
  let gamma_jt := (mul noise_std) <$> gamma_jt in
  let* gamma_star_jt := randn harmonics in
  let gamma_star_jt := (mul noise_std) <$> gamma_star_jt in
  let total_timesteps := 100 * duration in  (* Pad for burn in *)
  let* series := np_zeros total_timesteps in
  let* ts := py_range 0 (PyInt total_timesteps) in
  let* '(_, _, series) :=
    for_each ts (time_step lambda_p noise_std harmonics)
      (gamma_jt, gamma_star_jt, series) in
  let wanted_series := py_slice_from (- duration) series in  (* Discard burn in *)
  ret wanted_series.

(** The function from [lambda_p] on with the loop over [t] cut after [k]
    time steps, [range(k)] in place of [range(total_timesteps)]: the three
    loop variables as they are then. [harmonics] and [duration] are the
    two [int]s the first lines of the function compute. *)
Definition simulate_steps (periodicity : pynum) (noise_std : float64)
    (harmonics duration : Z) (k : nat)
    : M rng (list float64 * list float64 * list float64) :=
  let harmonics := PyInt harmonics in
  let* fp := lift (py_float periodicity) in
  let* lambda_p := lift (py_float_div (mul two pi) fp) in
  let* gamma_jt := randn harmonics in
  let gamma_jt := (mul noise_std) <$> gamma_jt in
  let* gamma_star_jt := randn harmonics in
  let gamma_star_jt := (mul noise_std) <$> gamma_star_jt in
  let total_timesteps := 100 * duration in
  let* series := np_zeros total_timesteps in
  let* ts := py_range 0 (PyInt (Z.of_nat k)) in
  for_each ts (time_step lambda_p noise_std harmonics) (gamma_jt, gamma_star_jt, series).

End Simulate.

(** A generator to run the function on examples: its state counts the
    draws, and the n-th draw is the float [n]. With it, stand-ins for
    [np.cos] and [np.sin]. *)
Definition sample_randn1 (g : nat) : float64 * nat := (of_Z (Z.of_nat g), S g).

Definition sample_cos (x : float64) : float64 := one.

Definition sample_sin (x : float64) : float64 := zero.

Definition sample_run (periodicity total_cycles : pynum) (harmonics : option pynum)
  : nat * result (list float64) :=
  simulate_seasonal_term sample_randn1 sample_cos sample_sin Numpy.sum
    periodicity total_cycles one harmonics 0%nat.

End Seasonal.

Module LocalLinearTrendStates.

Import LocalLinearTrend.

(** The model the constructor builds, with the observation covariance [[x]]
    and the state covariance [[a, 0], [0, b]] in place of the zeros. *)
Definition with_covariances (endog : list float64) (x a b : float64) : t :=
  {| base :=
       {| StateSpace.endog := endog; k_endog := 1; k_states := 2; k_posdef := 2;
          initialization := Some approximate_diffuse; loglikelihood_burn := 2;
          ssm :=
            {| _obs_intercept := [[zero]];
               _design := [[one; zero]];
               _obs_cov := [[x]];
               _state_intercept := [[zero]; [zero]];
               _transition := [[one; one]; [zero; one]];
               _selection := [[one; zero]; [zero; one]];
               _state_cov := [[a; zero]; [zero; b]] |} |};
     _state_cov_idx := (state_cov, ([0; 1], [0; 1]))%nat |}.

End LocalLinearTrendStates.

(* ===================================================================== *)
(** ** The script around [simulate_seasonal_term] *)
(* ===================================================================== *)

Module SeasonalScript.

Import Seasonal.

(** An [int] as an exact, unnormalised float, to divide by. *)
Definition exact_Z (z : Z) : float64 :=
  match z with
  | 0 => S754_zero false
  | Z.pos p => S754_finite false p 0
  | Z.neg p => S754_finite true p 0
  end.

(** [a / b] on two [int]s: the correctly rounded quotient; a zero divisor
    raises [ZeroDivisionError], a quotient too large for a double
    [OverflowError]. *)
Definition py_truediv_int (a b : Z) : result float64 :=
  if b =? 0 then Raise ZeroDivisionError
  else
    let q := div (exact_Z a) (exact_Z b) in
    if is_finite q then Ok q else Raise OverflowError.

(** The values of [pd.Series(np.sum(rows, axis=0))] for a list of
    one-dimensional arrays: the rows added entry by entry, first to last.
    Rows of different lengths are refused; no row at all sums to the one
    value 0.0. *)
Definition sum_axis0 (rows : list (list float64)) : result (list float64) :=
  match rows with
  | [] => Ok [zero]
  | r0 :: rest =>
      if forallb (fun r => (length r =? length r0)%nat) rest
      then Ok (foldl (zip_with add) r0 rest)
      else Raise ValueError
  end.

(** [m] run from [s] returns a value in [P], or raises an exception in
    [E]. *)
Definition ends_in {S A : Type} (m : M S A) (s : S) (P : A -> Prop) (E : exn -> Prop) : Prop :=
  match snd (m s) with
  | Ok a => P a
  | Raise e => E e
  end.

(** The globals of the cell that builds the synthetic data. *)
Definition duration : Z := 100 * 3.

Definition periodicities : list Z := [10; 100].

Definition num_harmonics : list Z := [3; 2].

Definition std : list Z := [2; 3].

Section Script.

Context {rng : Type}.
Variable randn1 : rng -> float64 * rng.
Variables np_cos np_sin : float64 -> float64.
Variable np_sum : list float64 -> float64.

(** The state of the generator after [n] more draws. *)
Definition advance (n : nat) (g : rng) : rng :=
  Nat.iter n (fun g' => snd (randn1 g')) g.

(** [m] run from [g] returns normally with a value in [P], having drawn
    exactly [k] random numbers. *)
Definition returns_after {A : Type} (k : nat) (m : M rng A) (g : rng) (P : A -> Prop) : Prop :=
  exists a, m g = (advance k g, Ok a) /\ P a.

(** The body of the loop over [enumerate(periodicities)]: one seasonal term
    simulated and appended to [terms]. *)
Definition append_term (terms : list (list float64)) (ix : nat) : M rng (list (list float64)) :=
  let* p := getitem periodicities ix in
  let* cycles := lift (py_truediv_int duration p) in
  let* h := getitem num_harmonics ix in
  let* sd := getitem std ix in
  let* s :=
    simulate_seasonal_term randn1 np_cos np_sin np_sum
      (PyInt p) (PyFloat cycles) (of_Z sd) (Some (PyInt h)) in
  ret (terms ++ [s]).

(** The cell that builds the synthetic data: the two seasonal terms, then
    the constant level 10 (the generator has been seeded before). *)
Definition synthetic_terms : M rng (list (list float64)) :=
  let* terms := for_each (seq 0 (length periodicities)) append_term [] in
  let* t0 := getitem terms 0 in
  ret (terms ++ [(fun x => mul x (of_Z 10)) <$> replicate (length t0) one]).

(** [series = pd.Series(np.sum(terms, axis=0))], with the terms. *)
Definition synthetic_series : M rng (list (list float64) * list float64) :=
  let* terms := synthetic_terms in
  let* series := lift (sum_axis0 terms) in
  ret (terms, series).

End Script.

End SeasonalScript.

(* ===================================================================== *)
(** ** The script [recursive_ls.py]: the double-sided moving average *)
(* ===================================================================== *)

Module RecursiveLS.

(** The entries of [np.arange(start, stop, -1)] on two [int]s: [start,
    start - 1, ...] down to [stop + 1]. Whether numpy builds an array of
    that size is [np_allocate], below. *)
Definition np_arange_down (start stop : Z) : list Z :=
  (fun i => start - Z.of_nat i) <$> seq 0 (Z.to_nat (start - stop)).

(** [range(a, b)] on two [int]s. *)
Definition range (a b : Z) : list Z :=
  (fun i => a + Z.of_nat i) <$> seq 0 (Z.to_nat (b - a)).

(** A bound of a slice on a sequence of [n] items: a negative bound counts
    from the end, and bounds outside the sequence are clipped. *)
Definition slice_bound (n i : Z) : Z :=
  if i <? 0 then Z.max (n + i) 0 else Z.min i n.

(** [l[start:stop]] (and [.iloc[start:stop]]) for any two integers. *)
Definition py_slice {A : Type} (start stop : Z) (l : list A) : list A :=
  let n := Z.of_nat (length l) in
  let a := slice_bound n start in
  let b := slice_bound n stop in
  take (Z.to_nat (b - a)) (drop (Z.to_nat a) l).

(** [a * b] on two one-dimensional arrays: entry by entry, an array of one
    entry being stretched to the length of the other; other lengths that
    differ are a [ValueError]. *)
Definition np_multiply (a b : list float64) : result (list float64) :=
  if (length a =? length b)%nat then Ok (zip_with mul a b)
  else
    match a, b with
    | [x], _ => Ok (mul x <$> b)
    | _, [y] => Ok ((fun x => mul x y) <$> a)
    | _, _ => Raise ValueError
    end.

(** [pd.Series(data, index=index)] for a list [data]: the lengths must
    agree. *)
Definition pd_Series {L : Type} (data : list float64) (index : list L)
  : result (list (L * float64)) :=
  if (length data =? length index)%nat then Ok (zip index data) else Raise ValueError.

(** [for x in l: body], threading the loop variables [acc]. *)
Fixpoint for_each {A B : Type} (l : list A) (body : B -> A -> result B) (acc : B) : result B :=
  match l with
  | [] => Ok acc
  | x :: l' => rbind (body acc x) (for_each l' body)
  end.

(** Whether numpy builds an array of [n] entries of 8 bytes: it refuses
    [Numpy.max_entries] entries or more with [ValueError]. *)
Definition np_allocate (n : Z) : result unit :=
  if Numpy.max_entries <=? n then Raise ValueError else Ok tt.

(** A stand-in for [**] to run the function on examples: the power by
    repeated multiplication. *)
Definition sample_power (b : float64) (k : Z) : float64 :=
  Nat.iter (Z.to_nat k) (mul b) one.

Section Ewma.

(** The labels of the index of a series; a series is the list of its
    labelled values. *)
Context {label : Type}.

(** [beta ** k] on a [float] and an integer entry of an array, and
    [np.sum]. *)
Variable np_power : float64 -> Z -> float64.
Variable np_sum : list float64 -> float64.

(** [np.r_[beta**k, 1, beta**k[::-1]]] for [k = np.arange(n_window, 0, -1)]. *)
Definition weights (beta : float64) (n_window : Z) : list float64 :=
  let k := np_arange_down n_window 0 in
  (np_power beta <$> k) ++ [one] ++ (np_power beta <$> reverse k).

Definition ewma (series : list (label * float64)) (beta : float64) (n_window : Z)
  : result (list (label * float64)) :=
  let nobs := Z.of_nat (length series) in
  rbind (py_float_div (sub one beta) (add one beta)) (fun scalar =>
  let ma := [] in
  rbind (np_allocate (n_window - 0)) (fun _ =>       (* k *)
  rbind (np_allocate (2 * n_window + 1)) (fun _ =>   (* weights *)
  let weights := weights beta n_window in
  rbind (for_each (range n_window (nobs - n_window))
           (fun ma t =>
              let window := snd <$> py_slice (t - n_window) (t + n_window + 1) series in
              rbind (np_multiply weights window) (fun product =>
              Ok (ma ++ [mul scalar (np_sum product)])))
           ma) (fun ma =>
  pd_Series ma (fst <$> py_slice n_window (- n_window) series))))).

(** The entry the loop computes for the window of [2 * w + 1] values that
    starts at position [i] of the series. *)
Definition window_average (series : list (label * float64)) (beta : float64) (w i : nat)
  : float64 :=
  mul (div (sub one beta) (add one beta))
    (np_sum (zip_with mul (weights beta (Z.of_nat w))
               (snd <$> take (2 * w + 1) (drop i series)))).

End Ewma.

End RecursiveLS.

(* ===================================================================== *)
(** * Properties of binary64 arithmetic *)
(* ===================================================================== *)

Module Float64Facts.

(** *** Number of binary digits *)

Lemma digits2_pos_bounds (m : positive) :
  2 ^ (Z.pos (digits2_pos m) - 1) <= Z.pos m < 2 ^ Z.pos (digits2_pos m).
Proof.
  induction m as [m IH|m IH|]; simpl digits2_pos.
  - rewrite Pos2Z.inj_succ.
    replace (Z.succ (Z.pos (digits2_pos m)) - 1) with (Z.succ (Z.pos (digits2_pos m) - 1)) by lia.
    rewrite !Z.pow_succ_r by lia. lia.
  - rewrite Pos2Z.inj_succ.
    replace (Z.succ (Z.pos (digits2_pos m)) - 1) with (Z.succ (Z.pos (digits2_pos m) - 1)) by lia.
    rewrite !Z.pow_succ_r by lia. lia.
  - simpl. lia.
Qed.

Lemma digits2_pos_unique (m : positive) (d : Z) :
  2 ^ (d - 1) <= Z.pos m < 2 ^ d -> Z.pos (digits2_pos m) = d.
Proof.
  intros [Hlo Hhi].
  pose proof (digits2_pos_bounds m) as [Blo Bhi].
  assert (0 < d) as Hd.
  { destruct (Z_lt_le_dec 0 d) as [|Hle]; [assumption|].
    exfalso. destruct (Z.eq_dec d 0) as [->|]; [simpl in Hhi; lia|].
    rewrite Z.pow_neg_r in Hhi by lia. lia. }
  destruct (Z.lt_trichotomy (Z.pos (digits2_pos m)) d) as [Hlt|[Heq|Hgt]]; [|assumption|].
  - exfalso.
    assert (2 ^ Z.pos (digits2_pos m) <= 2 ^ (d - 1)) by (apply Z.pow_le_mono_r; lia).
    lia.
  - exfalso.
    assert (2 ^ d <= 2 ^ (Z.pos (digits2_pos m) - 1)) by (apply Z.pow_le_mono_r; lia).
    lia.
Qed.

(** *** Shifting a mantissa to the right *)

Lemma iter_pos_nat {A : Type} (f : A -> A) (p : positive) (x : A) :
  SpecFloat.iter_pos f p x = Nat.iter (Pos.to_nat p) f x.
Proof.
  revert x. induction p as [p IH|p IH|]; intros x; simpl SpecFloat.iter_pos.
  - rewrite !IH. rewrite Pos2Nat.inj_xI.
    replace (S (2 * Pos.to_nat p)) with (Pos.to_nat p + (Pos.to_nat p + 1))%nat by lia.
    rewrite !Nat.iter_add. reflexivity.
  - rewrite !IH. rewrite Pos2Nat.inj_xO.
    replace (2 * Pos.to_nat p)%nat with (Pos.to_nat p + Pos.to_nat p)%nat by lia.
    rewrite Nat.iter_add. reflexivity.
  - reflexivity.
Qed.

Lemma shr_1_nonneg (m : Z) (r s : bool) :
  0 <= m ->
  shr_1 (Build_shr_record m r s) = Build_shr_record (m / 2) (Z.odd m) (r || s).
Proof.
  intros Hm. destruct m as [|p|p]; [reflexivity| |lia].
  destruct p as [p|p|]; simpl shr_1.
  - f_equal. rewrite Pos2Z.inj_xI.
    apply (Z.div_unique _ _ _ 1); lia.
  - f_equal. rewrite Pos2Z.inj_xO.
    apply (Z.div_unique _ _ _ 0); lia.
  - reflexivity.
Qed.

(** [k + 1] shifts of a mantissa that is not negative: the quotient by
    [2^(k+1)], the last bit shifted out and whether anything was shifted
    out before it. *)
Lemma shr_iter (k : nat) (m : Z) (r s : bool) :
  0 <= m ->
  Nat.iter (S k) shr_1 (Build_shr_record m r s)
  = Build_shr_record (m / 2 ^ Z.of_nat (S k))
      (Z.odd (m / 2 ^ Z.of_nat k))
      (r || s || negb (m mod 2 ^ Z.of_nat k =? 0)).
Proof.
  intros Hm. induction k as [|k IH].
  - change (Nat.iter 1 shr_1 ?x) with (shr_1 x). rewrite shr_1_nonneg by assumption.
    change (Z.of_nat 1) with 1. change (Z.of_nat 0) with 0.
    rewrite Z.pow_0_r, Z.pow_1_r, Z.div_1_r, Z.mod_1_r. simpl.
    rewrite orb_false_r. reflexivity.
  - change (Nat.iter (S (S k)) shr_1 ?x) with (shr_1 (Nat.iter (S k) shr_1 x)).
    rewrite IH.
    assert (0 < 2 ^ Z.of_nat k) as Hk by (apply Z.pow_pos_nonneg; lia).
    assert (2 ^ Z.of_nat (S k) = 2 * 2 ^ Z.of_nat k) as E1
      by (rewrite Nat2Z.inj_succ, Z.pow_succ_r by lia; reflexivity).
    assert (2 ^ Z.of_nat (S (S k)) = 2 ^ Z.of_nat (S k) * 2) as E2
      by (rewrite (Nat2Z.inj_succ (S k)), Z.pow_succ_r by lia; lia).
    rewrite shr_1_nonneg by (apply Z.div_pos; lia).
    assert (m / 2 ^ Z.of_nat (S k) / 2 = m / 2 ^ Z.of_nat (S (S k))) as ->
      by (rewrite E2, Z.div_div by lia; reflexivity).
    f_equal.
    + (* the sticky bit *)
      assert (m mod 2 ^ Z.of_nat (S k)
              = m mod 2 ^ Z.of_nat k + 2 ^ Z.of_nat k * ((m / 2 ^ Z.of_nat k) mod 2)) as ->.
      { rewrite E1, (Z.mul_comm 2). apply Z.rem_mul_r; lia. }
      pose proof (Z.mod_pos_bound m (2 ^ Z.of_nat k) Hk) as B1.
      pose proof (Z.mod_pos_bound (m / 2 ^ Z.of_nat k) 2 ltac:(lia)) as B2.
      rewrite (Zodd_mod (m / 2 ^ Z.of_nat k)).
      destruct (Z.eqb_spec ((m / 2 ^ Z.of_nat k) mod 2) 1) as [E|E];
        destruct (Z.eqb_spec (m mod 2 ^ Z.of_nat k) 0) as [E'|E'];
        destruct (Z.eqb_spec (m mod 2 ^ Z.of_nat k + 2 ^ Z.of_nat k * ((m / 2 ^ Z.of_nat k) mod 2)) 0) as [E''|E''];
        destruct r, s; simpl; try reflexivity; exfalso; nia.
Qed.


Lemma shr_pos (p : positive) (m : Z) (r s : bool) :
  0 <= m ->
  SpecFloat.iter_pos shr_1 p (Build_shr_record m r s)
  = Build_shr_record (m / 2 ^ Z.pos p)
      (Z.odd (m / 2 ^ (Z.pos p - 1)))
      (r || s || negb (m mod 2 ^ (Z.pos p - 1) =? 0)).
Proof.
  intros Hm. rewrite iter_pos_nat.
  destruct (Pos.to_nat p) as [|k] eqn:E; [lia|].
  rewrite shr_iter by assumption.
  replace (Z.of_nat (S k)) with (Z.pos p) by lia.
  replace (Z.of_nat k) with (Z.pos p - 1) by lia.
  reflexivity.
Qed.

Lemma shr_record_of_loc_m (m : Z) (l : location) :
  exists r s, shr_record_of_loc m l = Build_shr_record m r s.
Proof. destruct l as [|[]]; simpl; eauto. Qed.

Lemma shr_m_nonneg (mrs : shr_record) (e n : Z) :
  0 <= shr_m mrs -> 0 <= shr_m (fst (shr mrs e n)).
Proof.
  intros Hm. destruct mrs as [m r s]. simpl in Hm.
  destruct n as [|p|p]; simpl; try assumption.
  rewrite shr_pos by assumption. simpl.
  apply Z.div_pos; [assumption|]. apply Z.pow_pos_nonneg; lia.
Qed.

Lemma round_nearest_even_nonneg (m : Z) (l : location) :
  0 <= m -> 0 <= round_nearest_even m l.
Proof.
  intros Hm. destruct l as [|[]]; simpl; try lia.
  destruct (Z.even m); lia.
Qed.

(** Rounding a mantissa that is not negative never gives NaN and keeps the
    sign it is given. *)
Lemma binary_round_aux_sign (sx : bool) (mx ex : Z) (lx : location) :
  0 <= mx ->
  match binary_round_aux prec emax sx mx ex lx with
  | S754_zero s | S754_infinity s | S754_finite s _ _ => s = sx
  | S754_nan => False
  end.
Proof.
  intros Hm. unfold binary_round_aux, shr_fexp.
  destruct (shr_record_of_loc_m mx lx) as (r & s & ->).
  pose proof (shr_m_nonneg (Build_shr_record mx r s) ex
                (fexp prec emax (Zdigits2 mx + ex) - ex) Hm) as H1.
  destruct (shr _ ex _) as [mrs' e']. simpl in H1.
  pose proof (round_nearest_even_nonneg _ (loc_of_shr_record mrs') H1) as H2.
  set (m1 := round_nearest_even _ _) in *.
  pose proof (shr_m_nonneg (shr_record_of_loc m1 loc_Exact) e'
                (fexp prec emax (Zdigits2 m1 + e') - e') H2) as H3.
  destruct (shr _ e' _) as [mrs'' e'']. simpl in H3.
  destruct (shr_m mrs'') as [|q|q]; [reflexivity| |lia].
  destruct (e'' <=? emax - prec); reflexivity.
Qed.

(** The square of a number is a number that is not negative. *)
Lemma mul_self_nonneg (x : float64) :
  is_nan x = false -> is_nonneg (mul x x) = true.
Proof.
  destruct x as [s|s| |s m e]; simpl; intros Hx; try discriminate.
  - destruct s; reflexivity.
  - destruct s; reflexivity.
  - unfold mul, SFmul.
    pose proof (binary_round_aux_sign (xorb s s) (Z.pos (m * m)) (e + e) loc_Exact ltac:(lia)) as H.
    rewrite xorb_nilpotent in *.
    destruct (binary_round_aux _ _ _ _ _ _) as [s'|s'| |s' m' e']; simpl; subst; tauto.
Qed.

Lemma nonneg_leb_zero (x : float64) :
  is_nonneg x = true -> leb zero x = true.
Proof. destruct x as [[]|[]| |[] m e]; simpl; intros H; try discriminate; reflexivity. Qed.


(** Shifting an exact mantissa by [p] bits and rounding to nearest even
    gives a neighbour [N] of [m / 2^p] at most half a unit away. *)
Lemma round_shifted (p : positive) (m : Z) :
  0 <= m ->
  let mrs := SpecFloat.iter_pos shr_1 p (Build_shr_record m false false) in
  let N := round_nearest_even (shr_m mrs) (loc_of_shr_record mrs) in
  m / 2 ^ Z.pos p <= N <= m / 2 ^ Z.pos p + 1
  /\ - 2 ^ (Z.pos p - 1) <= N * 2 ^ Z.pos p - m <= 2 ^ (Z.pos p - 1).
Proof.
  intros Hm mrs N. subst N mrs. rewrite shr_pos by assumption.
  set (h := 2 ^ (Z.pos p - 1)).
  assert (0 < h) as Hh by (apply Z.pow_pos_nonneg; lia).
  assert (2 ^ Z.pos p = h * 2) as E.
  { replace (Z.pos p) with (Z.succ (Z.pos p - 1)) by lia.
    rewrite Z.pow_succ_r by lia. subst h. lia. }
  rewrite E.
  pose proof (Z.div_mod m (h * 2) ltac:(lia)) as Hdm.
  pose proof (Z.rem_mul_r m h 2 ltac:(lia) ltac:(lia)) as Hrem.
  pose proof (Z.mod_pos_bound m h Hh) as B1.
  pose proof (Z.mod_pos_bound (m / h) 2 ltac:(lia)) as B2.
  rewrite (Zodd_mod (m / h)).
  set (q := m / (h * 2)) in *.
  cbn [shr_m loc_of_shr_record orb].
  destruct (Z.eqb_spec ((m / h) mod 2) 1) as [Eb|Eb];
    destruct (Z.eqb_spec (m mod h) 0) as [Es|Es]; cbn [negb round_nearest_even].
  - destruct (Z.even q); lia.
  - lia.
  - lia.
  - lia.
Qed.


Lemma Zdigits2_le (q d : Z) :
  0 <= q < 2 ^ d -> 0 <= d -> Zdigits2 q <= d.
Proof.
  intros [Hq Hlt] Hd. destruct q as [|q|q]; [simpl; lia| |lia].
  simpl. pose proof (digits2_pos_bounds q) as [Blo _].
  destruct (Z_le_gt_dec (Z.pos (digits2_pos q)) d) as [|Hgt]; [assumption|].
  exfalso.
  assert (2 ^ d <= 2 ^ (Z.pos (digits2_pos q) - 1)) by (apply Z.pow_le_mono_r; lia).
  lia.
Qed.

Lemma shr_fexp_shift (m e : Z) (p : positive) :
  fexp prec emax (Zdigits2 m + e) - e = Z.pos p ->
  shr_fexp prec emax m e loc_Exact
  = (SpecFloat.iter_pos shr_1 p (Build_shr_record m false false), e + Z.pos p).
Proof. intros H. unfold shr_fexp. rewrite H. reflexivity. Qed.

Lemma shr_fexp_noshift (m e : Z) (l : location) :
  fexp prec emax (Zdigits2 m + e) - e <= 0 ->
  shr_fexp prec emax m e l = (shr_record_of_loc m l, e).
Proof.
  intros H. unfold shr_fexp.
  destruct (fexp prec emax (Zdigits2 m + e) - e) as [|p|p]; [reflexivity|lia|reflexivity].
Qed.

(** A mantissa of 53 bits with an exponent in range is left as it is by the
    final rounding step. *)
Lemma binary_round_aux_canonical (sx : bool) (q : Z) (m : positive) (e : Z) (l : location) :
  0 <= q < 2 ^ 53 ->
  round_nearest_even q l = Z.pos m ->
  Z.pos (digits2_pos m) = 53 ->
  -1074 <= e <= 971 ->
  binary_round_aux prec emax sx q e l = S754_finite sx m e.
Proof.
  intros Hq Hr Hd He. unfold binary_round_aux.
  rewrite shr_fexp_noshift.
  2:{ pose proof (Zdigits2_le q 53 Hq ltac:(lia)). unfold fexp, emin, prec, emax. lia. }
  assert (shr_m (shr_record_of_loc q l) = q) as Em by (destruct l as [|[]]; reflexivity).
  assert (loc_of_shr_record (shr_record_of_loc q l) = l) as El by (destruct l as [|[]]; reflexivity).
  rewrite Em, El, Hr.
  rewrite shr_fexp_noshift.
  2:{ simpl Zdigits2. rewrite Hd. unfold fexp, emin, prec, emax. lia. }
  cbn [shr_record_of_loc shr_m].
  replace (e <=? emax - prec) with true; [reflexivity|].
  symmetry. apply Z.leb_le. unfold emax, prec. lia.
Qed.

(** The square of a normal number [m * 2^e] in range: a normal number
    [N * 2^(2e+n)] with [N * 2^n] within half a unit of [m^2]. *)
Lemma mul_self_in_range (s : bool) (m : positive) (e : Z) :
  Z.pos (digits2_pos m) = 53 ->
  -563 <= e <= 459 ->
  exists (N : positive) (n : positive),
    mul (S754_finite s m e) (S754_finite s m e) = S754_finite false N (e + e + Z.pos n)
    /\ (Z.pos n = 52 \/ Z.pos n = 53)
    /\ Z.pos (digits2_pos N) = 53
    /\ 2 ^ (Z.pos n + 52) <= Z.pos m * Z.pos m
    /\ - 2 ^ (Z.pos n - 1) <= Z.pos N * 2 ^ Z.pos n - Z.pos m * Z.pos m <= 2 ^ (Z.pos n - 1).
Proof.
  intros Hd He.
  pose proof (digits2_pos_bounds m) as Bm. rewrite Hd in Bm.
  change (2 ^ (53 - 1)) with 4503599627370496 in Bm.
  change (2 ^ 53) with 9007199254740992 in Bm.
  unfold mul, SFmul. rewrite xorb_nilpotent.
  set (M := Z.pos (m * m)).
  assert (M = Z.pos m * Z.pos m) as EM by (subst M; apply Pos2Z.inj_mul).
  assert (2 ^ 104 <= M < 2 ^ 106) as BM.
  { change (2 ^ 104) with (4503599627370496 * 4503599627370496).
    change (2 ^ 106) with (9007199254740992 * 9007199254740992). nia. }
  (* the number of bits shifted out *)
  assert (exists n : positive,
             (Z.pos n = 52 \/ Z.pos n = 53)
             /\ 2 ^ (Z.pos n + 52) <= M < 2 ^ (Z.pos n + 53)) as (n & Hn & BMn).
  { destruct (Z_lt_le_dec M (2 ^ 105)) as [Hlt|Hge].
    - exists 52%positive. split; [left; reflexivity|].
      change (2 ^ (52 + 52)) with (2 ^ 104). change (2 ^ (52 + 53)) with (2 ^ 105). lia.
    - exists 53%positive. split; [right; reflexivity|].
      change (2 ^ (53 + 52)) with (2 ^ 105). change (2 ^ (53 + 53)) with (2 ^ 106). lia. }
  assert (Zdigits2 M = Z.pos n + 53) as EdM.
  { subst M. simpl Zdigits2. apply digits2_pos_unique.
    replace (Z.pos n + 53 - 1) with (Z.pos n + 52) by lia. exact BMn. }
  unfold binary_round_aux.
  rewrite (shr_fexp_shift M (e + e) n).
  2:{ rewrite EdM. unfold fexp, emin, prec, emax. lia. }
  pose proof (round_shifted n M ltac:(lia)) as HN. cbv zeta in HN.
  set (N := round_nearest_even _ _) in *.
  destruct HN as [HN1 HN2].
  assert (2 ^ 52 <= N < 2 ^ 53) as BN.
  { assert (0 < 2 ^ Z.pos n) as Hpn by (apply Z.pow_pos_nonneg; lia).
    assert (2 ^ 52 <= M / 2 ^ Z.pos n) as Hlo.
    { apply Z.div_le_lower_bound; [assumption|].
      rewrite <- Z.pow_add_r by lia. apply BMn. }
    split; [lia|].
    destruct Hn as [En|En]; rewrite En in *.
    - (* 105 bits: the square stays clear of the next power of two *)
      change (2 ^ (52 + 52)) with (2 ^ 104) in BMn. change (2 ^ (52 + 53)) with (2 ^ 105) in BMn.
      change (2 ^ (52 - 1)) with 2251799813685248 in HN2.
      change (2 ^ 52) with 4503599627370496 in *.
      change (2 ^ 53) with 9007199254740992.
      change (2 ^ 105) with 40564819207303340847894502572032 in BMn.
      assert (Z.pos m <= 6369051672525772) as Hm' by nia.
      assert (M <= 6369051672525772 * 6369051672525772) as HM' by nia.
      lia.
    - change (2 ^ (53 + 52)) with (2 ^ 105) in BMn. change (2 ^ (53 + 53)) with (2 ^ 106) in BMn.
      change (2 ^ (53 - 1)) with 4503599627370496 in HN2.
      change (2 ^ 53) with 9007199254740992 in *.
      assert (M <= 9007199254740991 * 9007199254740991) as HM' by nia.
      lia. }
  destruct N as [|N'|N'] eqn:EN; [exfalso; change (2 ^ 52) with 4503599627370496 in BN; lia| |lia].
  assert (Z.pos (digits2_pos N') = 53) as EdN by (apply digits2_pos_unique; exact BN).
  rewrite shr_fexp_noshift.
  2:{ simpl Zdigits2. rewrite EdN. unfold fexp, emin, prec, emax. lia. }
  cbn [shr_record_of_loc shr_m].
  replace (e + e + Z.pos n <=? emax - prec) with true.
  2:{ symmetry. apply Z.leb_le. unfold emax, prec. lia. }
  exists N', n. rewrite <- EM.
  split; [reflexivity|]. split; [assumption|]. split; [assumption|].
  split; [apply BMn | assumption].
Qed.


(** The square root of the rounded square is the number squared. *)
Lemma sqrt_of_square (m N n : positive) (e : Z) :
  Z.pos (digits2_pos m) = 53 ->
  Z.pos (digits2_pos N) = 53 ->
  Z.pos n = 52 \/ Z.pos n = 53 ->
  2 ^ (Z.pos n + 52) <= Z.pos m * Z.pos m ->
  - 2 ^ (Z.pos n - 1) <= Z.pos N * 2 ^ Z.pos n - Z.pos m * Z.pos m <= 2 ^ (Z.pos n - 1) ->
  -563 <= e <= 459 ->
  sqrt (S754_finite false N (e + e + Z.pos n)) = S754_finite false m e.
Proof.
  intros Hdm HdN Hn Hlo Hd He.
  pose proof (digits2_pos_bounds m) as Bm. rewrite Hdm in Bm.
  change (2 ^ (53 - 1)) with 4503599627370496 in Bm.
  change (2 ^ 53) with 9007199254740992 in Bm.
  unfold sqrt, SFsqrt, SFsqrt_core_binary. cbv zeta.
  simpl Zdigits2. rewrite HdN. rewrite !Z.div2_div.
  assert ((53 + (e + e + Z.pos n) + 1) / 2 = e + 53) as ->.
  { destruct Hn as [-> | ->]; symmetry.
    - apply (Z.div_unique _ _ _ 0); lia.
    - apply (Z.div_unique _ _ _ 1); lia. }
  assert ((e + e + Z.pos n) / 2 = e + 26) as ->.
  { destruct Hn as [-> | ->]; symmetry.
    - apply (Z.div_unique _ _ _ 0); lia.
    - apply (Z.div_unique _ _ _ 1); lia. }
  assert (fexp prec emax (e + 53) = e) as -> by (unfold fexp, emin, prec, emax; lia).
  rewrite Z.min_l by lia.
  replace (e + e + Z.pos n - 2 * e) with (Z.pos n) by lia.
  cbv iota. rewrite Z.shiftl_mul_pow2 by lia.
  set (h := 2 ^ (Z.pos n - 1)) in *.
  set (P := 2 ^ Z.pos n) in *.
  assert (h < Z.pos m) as Hh.
  { subst h. destruct Hn as [En | En]; rewrite En in *.
    - change (2 ^ (52 - 1)) with 2251799813685248. lia.
    - change (2 ^ (53 - 1)) with 4503599627370496.
      change (2 ^ (53 + 52)) with (4503599627370496 * 9007199254740992) in Hlo.
      destruct (Z_le_gt_dec (Z.pos m) 4503599627370496) as [Hle|Hgt]; [exfalso|lia].
      assert (Z.pos m * Z.pos m <= 4503599627370496 * 4503599627370496)
        by (apply Z.mul_le_mono_nonneg; lia).
      lia. }
  assert (0 < h) as Hh0 by (subst h; apply Z.pow_pos_nonneg; lia).
  pose proof (Z.sqrtrem_spec (Z.pos N * P) ltac:(subst P; assert (0 < 2 ^ Z.pos n) by (apply Z.pow_pos_nonneg; lia); lia)) as Hs.
  destruct (Z.sqrtrem (Z.pos N * P)) as [q r]. destruct Hs as [Hs1 Hs2].
  set (mz := Z.pos m) in *.
  assert (0 <= q) as Hq0 by lia.
  destruct (Z_le_gt_dec (mz * mz) (Z.pos N * P)) as [Hge|Hlt].
  - (* rounded up or exact: the integer root is [m] and the rest is small *)
    assert (q = mz) as Eq.
    { assert (q < mz + 1) by nia. assert (mz < q + 1) by nia. lia. }
    subst q.
    assert (r <= mz) as Hr by lia.
    apply binary_round_aux_canonical; [ | |assumption|lia].
    + change (2 ^ 53) with 9007199254740992. lia.
    + destruct (r =? 0); [reflexivity|].
      replace (r <=? mz) with true by (symmetry; apply Z.leb_le; assumption).
      reflexivity.
  - (* rounded down: the integer root is [m - 1] and the rest is large *)
    assert (q = mz - 1) as Eq.
    { assert (q < mz) by nia. assert (mz - 1 < q + 1) by nia. lia. }
    subst q.
    assert (mz - 1 < r) as Hr by nia.
    apply binary_round_aux_canonical; [ | |assumption|lia].
    + change (2 ^ 53) with 9007199254740992. lia.
    + replace (r =? 0) with false by (symmetry; apply Z.eqb_neq; lia).
      replace (r <=? mz - 1) with false by (symmetry; apply Z.leb_gt; assumption).
      simpl. lia.
Qed.

(** Squaring and taking the root gives back the absolute value, on every
    normal number whose square is in range: in radix 2, with rounding to
    nearest, the root of the rounded square rounds back to the number. *)
Lemma sqrt_mul_self (x : float64) :
  square_in_range x = true -> sqrt (mul x x) = abs x.
Proof.
  destruct x as [s|s| |s m e]; cbn [square_in_range abs SFabs]; try discriminate.
  intros H. apply andb_prop in H as [H He2]. apply andb_prop in H as [Hd He1].
  apply Z.eqb_eq in Hd. apply Z.leb_le in He1, He2. unfold prec in Hd.
  destruct (mul_self_in_range s m e Hd ltac:(lia)) as (N & n & -> & Hn & HdN & Hlo & Hbd).
  apply sqrt_of_square; try assumption. lia.
Qed.

(** *** Results that cannot overflow *)

Lemma Zdigits2_bound (m : Z) : 0 <= m -> m < 2 ^ Zdigits2 m /\ 0 <= Zdigits2 m.
Proof.
  intros Hm. destruct m as [|p|p]; [simpl; lia| |lia].
  simpl. pose proof (digits2_pos_bounds p). lia.
Qed.

Lemma round_nearest_even_range (q : Z) (l : location) :
  q <= round_nearest_even q l <= q + 1.
Proof. destruct l as [|[]]; simpl; try lia. destruct (Z.even q); lia. Qed.

Lemma fexp_le (e b : Z) : e <= b + 53 -> -1074 <= b -> fexp prec emax e <= b.
Proof. unfold fexp, emin, prec, emax. lia. Qed.

(** One shift-and-round step: the exponent grows to at most [fexp], the
    mantissa keeps at most one more bit than the value has and, rounded,
    at most 53 bits or is [2^53]. *)
Lemma shr_fexp_round (mx ex : Z) (lx : location) :
  0 <= mx ->
  let '(mrs, e') := shr_fexp prec emax mx ex lx in
  let m1 := round_nearest_even (shr_m mrs) (loc_of_shr_record mrs) in
  0 <= shr_m mrs
  /\ 0 <= m1
  /\ (e' = ex \/ e' = fexp prec emax (Zdigits2 mx + ex))
  /\ (Zdigits2 m1 + e' <= Zdigits2 mx + ex + 1 \/ Zdigits2 m1 <= 1)
  /\ m1 <= 2 ^ 53
  /\ (mx <= 2 ^ 53 -> shr_m mrs < 2 ^ 53).
Proof.
  intros Hm.
  destruct (Zdigits2_bound mx Hm) as [Hlt Hd].
  destruct (shr_record_of_loc_m mx lx) as (r & s & Hrec).
  unfold shr_fexp. rewrite Hrec.
  assert (Zdigits2 mx + ex - 53 <= fexp prec emax (Zdigits2 mx + ex)) as HF
    by (unfold fexp, emin, prec, emax; lia).
  assert (fexp prec emax (Zdigits2 mx + ex) - ex <= 0 -> mx < 2 ^ 53) as Hsmall.
  { intros Hle.
    assert (2 ^ Zdigits2 mx <= 2 ^ 53) by (apply Z.pow_le_mono_r; lia). lia. }
  assert (fexp prec emax (Zdigits2 mx + ex) - ex <= 0 ->
          let m1 := round_nearest_even mx (loc_of_shr_record (Build_shr_record mx r s)) in
          0 <= mx /\ 0 <= m1 /\ (ex = ex \/ ex = fexp prec emax (Zdigits2 mx + ex))
          /\ (Zdigits2 m1 + ex <= Zdigits2 mx + ex + 1 \/ Zdigits2 m1 <= 1)
          /\ m1 <= 2 ^ 53 /\ (mx <= 2 ^ 53 -> mx < 2 ^ 53)) as Hno.
  { intros Hle m1. specialize (Hsmall Hle).
    pose proof (round_nearest_even_range mx (loc_of_shr_record (Build_shr_record mx r s))) as Hr.
    fold m1 in Hr.
    split; [assumption|]. split; [lia|]. split; [left; reflexivity|].
    split; [|split; [lia | intros _; assumption]].
    left. assert (Zdigits2 m1 <= Zdigits2 mx + 1); [|lia].
    apply Zdigits2_le; [|lia]. rewrite Z.pow_add_r by lia. lia. }
  destruct (fexp prec emax (Zdigits2 mx + ex) - ex) as [|p|p] eqn:En; cbn [shr].
  - cbn [shr_m]. apply Hno. lia.
  - clear Hno Hsmall. rewrite shr_pos by assumption. cbn [shr_m].
    set (q := mx / 2 ^ Z.pos p).
    assert (0 < 2 ^ Z.pos p) as Hp by (apply Z.pow_pos_nonneg; lia).
    assert (0 <= q) as Hq by (apply Z.div_pos; lia).
    pose proof (round_nearest_even_range q
                  (loc_of_shr_record
                     (Build_shr_record q (Z.odd (mx / 2 ^ (Z.pos p - 1)))
                        (r || s || negb (mx mod 2 ^ (Z.pos p - 1) =? 0))))) as Hr.
    set (m1 := round_nearest_even q _) in *.
    split; [assumption|]. split; [lia|]. split; [right; lia|].
    assert (q <= mx / 2) as Hhalf.
    { subst q. replace (Z.pos p) with (1 + (Z.pos p - 1)) by lia.
      rewrite Z.pow_add_r by lia. change (2 ^ 1) with 2.
      rewrite <- Z.div_div by (try apply Z.pow_pos_nonneg; lia).
      apply Z.div_le_upper_bound; [apply Z.pow_pos_nonneg; lia|].
      assert (0 <= mx / 2) by (apply Z.div_pos; lia).
      assert (1 <= 2 ^ (Z.pos p - 1)) by (assert (0 < 2 ^ (Z.pos p - 1)) by (apply Z.pow_pos_nonneg; lia); lia).
      nia. }
    destruct (Z_le_gt_dec (Z.pos p) (Zdigits2 mx)) as [Hle|Hgt].
    + assert (q < 2 ^ (Zdigits2 mx - Z.pos p)) as Hq'.
      { apply Z.div_lt_upper_bound; [assumption|].
        rewrite <- Z.pow_add_r by lia.
        replace (Z.pos p + (Zdigits2 mx - Z.pos p)) with (Zdigits2 mx) by lia. assumption. }
      assert (2 ^ (Zdigits2 mx - Z.pos p) <= 2 ^ 53) by (apply Z.pow_le_mono_r; lia).
      split; [|split; [lia|]].
      * left. assert (Zdigits2 m1 <= Zdigits2 mx - Z.pos p + 1); [|lia].
        apply Zdigits2_le; [|lia]. rewrite Z.pow_add_r by lia. lia.
      * intros Hmx. assert (mx / 2 <= 2 ^ 52); [|change (2 ^ 53) with 9007199254740992; change (2 ^ 52) with 4503599627370496 in *; lia].
        apply Z.div_le_upper_bound; [lia|]. change (2 * 2 ^ 52) with (2 ^ 53). assumption.
    + assert (q = 0) as Eq.
      { apply Z.div_small. split; [assumption|].
        assert (2 ^ Zdigits2 mx <= 2 ^ Z.pos p) by (apply Z.pow_le_mono_r; lia). lia. }
      change (2 ^ 53) with 9007199254740992.
      split; [|split; [lia | intros _; lia]].
      right. apply Zdigits2_le; [|lia]. change (2 ^ 1) with 2. lia.
  - cbn [shr_m]. apply Hno. lia.
Qed.

(** Rounding a mantissa that is not negative, of a value below
    [2^(b+52)] with an exponent below [b]: a zero or a finite number with
    that sign, a mantissa below [2^53] and an exponent of at most [b]. *)
Lemma binary_round_aux_bounded (b : Z) (sx : bool) (mx ex : Z) (lx : location) :
  0 <= mx ->
  Zdigits2 mx + ex <= b + 52 ->
  ex < b ->
  -1074 < b <= 971 ->
  match binary_round_aux prec emax sx mx ex lx with
  | S754_zero s => s = sx
  | S754_finite s m e => s = sx /\ Z.pos m < 2 ^ 53 /\ e <= b
  | _ => False
  end.
Proof.
  intros Hm Hd He Hb. unfold binary_round_aux.
  pose proof (shr_fexp_round mx ex lx Hm) as H1.
  destruct (shr_fexp prec emax mx ex lx) as [mrs' e'].
  cbv zeta in H1. destruct H1 as (_ & Hm1 & He' & Hd1 & Hm1' & _).
  set (m1 := round_nearest_even _ _) in *.
  pose proof (fexp_le (Zdigits2 mx + ex) (b - 1) ltac:(lia) ltac:(lia)) as HF.
  assert (e' < b) as He'' by lia.
  destruct (Zdigits2_bound m1 Hm1) as [_ Hd1'].
  pose proof (shr_fexp_round m1 e' loc_Exact Hm1) as H2.
  destruct (shr_fexp prec emax m1 e' loc_Exact) as [mrs'' e''].
  cbv zeta in H2. destruct H2 as (Hm2 & _ & He2 & _ & _ & Hm2').
  specialize (Hm2' Hm1').
  pose proof (fexp_le (Zdigits2 m1 + e') b ltac:(lia) ltac:(lia)) as HF2.
  destruct (shr_m mrs'') as [|q|q]; [reflexivity| |lia].
  replace (e'' <=? emax - prec) with true.
  - split; [reflexivity|]. split; [assumption|lia].
  - symmetry. apply Z.leb_le. unfold emax, prec. lia.
Qed.

Lemma binary_round_bounded (b : Z) (sx : bool) (m : positive) (e : Z) :
  Z.pos (digits2_pos m) + e <= b + 52 ->
  -1074 < b <= 971 ->
  match binary_round prec emax sx m e with
  | S754_zero s => s = sx
  | S754_finite s m' e' => s = sx /\ Z.pos m' < 2 ^ 53 /\ e' <= b
  | _ => False
  end.
Proof.
  intros Hd Hb. unfold binary_round, shl_align.
  pose proof (fexp_le (Z.pos (digits2_pos m) + e) (b - 1) ltac:(lia) ltac:(lia)) as HF.
  destruct (fexp prec emax (Z.pos (digits2_pos m) + e) - e) as [|p|p] eqn:En.
  - apply binary_round_aux_bounded; simpl Zdigits2; lia.
  - apply binary_round_aux_bounded; simpl Zdigits2; lia.
  - apply binary_round_aux_bounded; try lia.
    fold (shift_pos p m).
    assert (Zdigits2 (Z.pos (shift_pos p m)) <= Z.pos (digits2_pos m) + Z.pos p); [|lia].
    apply Zdigits2_le; [|lia].
    rewrite shift_pos_correct. change (Z.pow_pos 2 p) with (2 ^ Z.pos p).
    pose proof (digits2_pos_bounds m) as [_ Hlt].
    assert (0 < 2 ^ Z.pos p) by (apply Z.pow_pos_nonneg; lia).
    rewrite Z.pow_add_r by lia. nia.
Qed.

(** [float(z)] is finite for every integer below [2^1023] in absolute
    value, and not negative when [z] is not. *)
Lemma of_scaled_bounded (b z e : Z) :
  Zdigits2 z + e <= b + 52 ->
  -1074 < b <= 971 ->
  match of_scaled z e with
  | S754_zero s => s = (z <? 0)
  | S754_finite s m' e' => s = (z <? 0) /\ Z.pos m' < 2 ^ 53 /\ e' <= b
  | _ => False
  end.
Proof.
  intros Hd Hb. unfold of_scaled, binary_normalize.
  destruct z as [|p|p]; [reflexivity| |].
  - apply (binary_round_bounded b false p e); assumption.
  - apply (binary_round_bounded b true p e); assumption.
Qed.

Lemma of_Z_finite (z : Z) :
  - 2 ^ 1023 < z < 2 ^ 1023 -> is_finite (of_Z z) = true.
Proof.
  intros Hz. unfold of_Z.
  assert (Zdigits2 z <= 1023) as Hd.
  { destruct z as [|p|p]; [simpl; lia| |].
    - apply Zdigits2_le; lia.
    - change (Zdigits2 (Z.neg p)) with (Zdigits2 (Z.pos p)). apply Zdigits2_le; lia. }
  pose proof (of_scaled_bounded 971 z 0 ltac:(lia) ltac:(lia)) as H.
  destruct (of_scaled z 0); try reflexivity; contradiction.
Qed.

(** *** Results that are not zero *)

Lemma Zdigits2_lower (m k : Z) : 0 < m -> 2 ^ (k - 1) <= m -> k <= Zdigits2 m.
Proof.
  intros Hm Hk. destruct (Zdigits2_bound m ltac:(lia)) as [Hlt Hd].
  destruct (Z_le_gt_dec k (Zdigits2 m)) as [|Hgt]; [assumption|exfalso].
  assert (2 ^ Zdigits2 m <= 2 ^ (k - 1)) by (apply Z.pow_le_mono_r; lia). lia.
Qed.

Lemma Zdigits2_pos_lower (m : Z) : 0 < m -> 2 ^ (Zdigits2 m - 1) <= m.
Proof.
  intros Hm. destruct m as [|p|p]; try lia. simpl. apply digits2_pos_bounds.
Qed.

Lemma Zdigits2_mono (a b : Z) : 0 < a <= b -> Zdigits2 a <= Zdigits2 b.
Proof.
  intros [Ha Hab]. apply Zdigits2_lower; [lia|].
  pose proof (Zdigits2_pos_lower a Ha). lia.
Qed.

(** In the normal range a shift keeps a positive mantissa positive and
    does not lose magnitude. *)
Lemma shr_fexp_positive (mx ex : Z) (lx : location) :
  0 < mx -> -1074 <= Zdigits2 mx + ex - 53 ->
  let '(mrs, e') := shr_fexp prec emax mx ex lx in
  0 < shr_m mrs /\ Zdigits2 mx + ex <= Zdigits2 (shr_m mrs) + e'.
Proof.
  intros Hm Hn.
  destruct (shr_record_of_loc_m mx lx) as (r & s & Hrec).
  unfold shr_fexp. rewrite Hrec.
  assert (fexp prec emax (Zdigits2 mx + ex) = Zdigits2 mx + ex - 53) as ->
    by (unfold fexp, emin, prec, emax; lia).
  destruct (Zdigits2 mx + ex - 53 - ex) as [|p|p] eqn:En; cbn [shr shr_m]; try lia.
  rewrite shr_pos by lia. cbn [shr_m].
  assert (Z.pos p = Zdigits2 mx - 53) as Ep by lia.
  pose proof (Zdigits2_pos_lower mx Hm) as Hlo.
  assert (0 < 2 ^ Z.pos p) as Hp by (apply Z.pow_pos_nonneg; lia).
  assert (2 ^ 52 <= mx / 2 ^ Z.pos p) as Hq.
  { apply Z.div_le_lower_bound; [assumption|].
    rewrite <- Z.pow_add_r by lia.
    replace (Z.pos p + 52) with (Zdigits2 mx - 1) by lia. assumption. }
  change (2 ^ 52) with 4503599627370496 in Hq.
  split; [lia|].
  assert (53 <= Zdigits2 (mx / 2 ^ Z.pos p)); [|lia].
  apply Zdigits2_lower; [lia|]. change (2 ^ (53 - 1)) with 4503599627370496. assumption.
Qed.

Lemma binary_round_aux_nonzero (sx : bool) (mx ex : Z) (lx : location) :
  0 < mx -> -1074 <= Zdigits2 mx + ex - 53 ->
  is_zero (binary_round_aux prec emax sx mx ex lx) = false.
Proof.
  intros Hm Hn. unfold binary_round_aux.
  pose proof (shr_fexp_positive mx ex lx Hm Hn) as H1.
  destruct (shr_fexp prec emax mx ex lx) as [mrs' e'].
  destruct H1 as [Hq Hd].
  pose proof (round_nearest_even_range (shr_m mrs') (loc_of_shr_record mrs')) as Hr.
  set (m1 := round_nearest_even _ _) in *.
  pose proof (Zdigits2_mono (shr_m mrs') m1 ltac:(lia)) as Hmono.
  pose proof (shr_fexp_positive m1 e' loc_Exact ltac:(lia) ltac:(lia)) as H2.
  destruct (shr_fexp prec emax m1 e' loc_Exact) as [mrs'' e''].
  destruct H2 as [Hq2 _].
  destruct (shr_m mrs'') as [|q|q]; try lia.
  destruct (e'' <=? emax - prec); reflexivity.
Qed.

Lemma of_Z_nonzero (z : Z) : 0 < z -> is_zero (of_Z z) = false.
Proof.
  intros Hz. destruct z as [|p|p]; try lia.
  unfold of_Z, of_scaled, binary_normalize, binary_round, shl_align.
  pose proof (digits2_pos_bounds p) as [Hlo Hhi].
  assert (0 < Z.pos (digits2_pos p)) as Hd by lia.
  destruct (fexp prec emax (Z.pos (digits2_pos p) + 0) - 0) as [|k|k] eqn:En.
  - apply binary_round_aux_nonzero; simpl Zdigits2; lia.
  - apply binary_round_aux_nonzero; simpl Zdigits2; lia.
  - apply binary_round_aux_nonzero; [lia|].
    fold (shift_pos k p).
    assert (Z.pos (digits2_pos p) <= Zdigits2 (Z.pos (shift_pos k p))).
    { apply Zdigits2_lower; [lia|].
      rewrite shift_pos_correct. change (Z.pow_pos 2 k) with (2 ^ Z.pos k).
      assert (0 < 2 ^ Z.pos k) by (apply Z.pow_pos_nonneg; lia). nia. }
    unfold fexp, emin, prec, emax in *. lia.
Qed.

(** *** Truncation and halving *)

Lemma trunc_bounded (m : positive) (e b : Z) :
  Z.pos m < 2 ^ 53 -> e <= b -> 0 <= b ->
  0 <= trunc (S754_finite false m e) < 2 ^ (53 + b).
Proof.
  intros Hm He Hb. unfold trunc, cond_Zopp.
  assert (2 ^ 53 <= 2 ^ (53 + b)) as Hmono by (apply Z.pow_le_mono_r; lia).
  destruct (Z.leb_spec 0 e) as [He0|He0].
  - assert (0 < 2 ^ e) by (apply Z.pow_pos_nonneg; lia).
    assert (2 ^ e <= 2 ^ b) by (apply Z.pow_le_mono_r; lia).
    rewrite Z.pow_add_r by lia. split; [lia|].
    assert (0 < 2 ^ b) by (apply Z.pow_pos_nonneg; lia).
    assert (Z.pos m * 2 ^ e <= Z.pos m * 2 ^ b) by (apply Z.mul_le_mono_nonneg_l; lia).
    assert (Z.pos m * 2 ^ b < 2 ^ 53 * 2 ^ b) by (apply Z.mul_lt_mono_pos_r; lia).
    lia.
  - assert (0 < 2 ^ (- e)) by (apply Z.pow_pos_nonneg; lia).
    split; [apply Z.div_pos; lia|].
    assert (Z.pos m / 2 ^ (- e) <= Z.pos m); [|lia].
    apply Z.div_le_upper_bound; [lia|]. nia.
Qed.

Lemma div_two_bounded (m : positive) (e : Z) :
  Z.pos (digits2_pos m) + e <= 1023 ->
  match div (S754_finite false m e) two with
  | S754_zero s => s = false
  | S754_finite s m' e' => s = false /\ Z.pos m' < 2 ^ 53 /\ e' <= 970
  | _ => False
  end.
Proof.
  intros Hd. unfold div, two, SFdiv, SFdiv_core_binary. cbv zeta.
  change (Zdigits2 (Z.pos 4503599627370496)) with 53.
  simpl Zdigits2. simpl xorb.
  set (d1 := Z.pos (digits2_pos m)) in *.
  set (e' := Z.min (fexp prec emax (d1 + e - (53 + -51))) (e - -51)).
  assert (e' <= e + 51) as He1 by (subst e'; lia).
  pose proof (fexp_le (d1 + e - (53 + -51)) 969 ltac:(lia) ltac:(lia)) as HF.
  assert (e' <= 969) as He2 by (subst e'; lia).
  set (s := e - -51 - e').
  assert (0 <= s) as Hs by (subst s; lia).
  set (m' := match s with Z.pos _ => Z.shiftl (Z.pos m) s | 0 => Z.pos m | Z.neg _ => 0 end).
  assert (m' = Z.pos m * 2 ^ s) as Em'.
  { subst m'. destruct s as [|k|k] eqn:Es; [simpl; lia| |lia].
    rewrite Z.shiftl_mul_pow2 by lia. reflexivity. }
  clearbody m'.
  pose proof (Z_div_mod m' 4503599627370496 ltac:(lia)) as Hdm.
  destruct (Z.div_eucl m' 4503599627370496) as [q r]. destruct Hdm as [Hdm Hr].
  pose proof (digits2_pos_bounds m) as [_ Hhi]. fold d1 in Hhi.
  assert (0 < 2 ^ s) as H2s by (apply Z.pow_pos_nonneg; lia).
  assert (0 <= q) as Hq0 by nia.
  apply binary_round_aux_bounded; try lia.
  destruct (Z_le_gt_dec 52 (d1 + s)) as [Hge|Hlt].
  - assert (Zdigits2 q <= d1 + s - 52); [|subst s; lia].
    apply Zdigits2_le; [|lia]. split; [assumption|].
    assert (m' < 2 ^ (d1 + s)) as Hm' by (rewrite Em', Z.pow_add_r by lia; nia).
    assert (2 ^ (d1 + s) = 2 ^ (d1 + s - 52) * 2 ^ 52) as Epow
      by (rewrite <- Z.pow_add_r by lia; f_equal; lia).
    change (2 ^ 52) with 4503599627370496 in Epow. nia.
  - assert (q = 0) as ->.
    { assert (m' < 2 ^ (d1 + s)) as Hm' by (rewrite Em', Z.pow_add_r by lia; nia).
      assert (2 ^ (d1 + s) <= 2 ^ 52) by (apply Z.pow_le_mono_r; lia).
      change (2 ^ 52) with 4503599627370496 in *. nia. }
    simpl Zdigits2. lia.
Qed.

End Float64Facts.

(* ===================================================================== *)
(** * Properties of [LocalLinearTrend] *)
(* ===================================================================== *)

Module LocalLinearTrendFacts.

Import LocalLinearTrend.

Lemma init_constructed (endog : list float64) :
  __init__ endog = Ok (constructed endog).
Proof. reflexivity. Qed.

Lemma constructed_invariant (endog : list float64) :
  class_invariant (constructed endog).
Proof. reflexivity. Qed.

(** *** Frame: what [update] leaves alone *)

Lemma get_set_matrix_ne (n n' : matrix_name) (m : matrix) (r : Representation) :
  n <> n' -> get_matrix n' (set_matrix n m r) = get_matrix n' r.
Proof. destruct n, n'; intros H; try reflexivity; congruence. Qed.

Lemma setitem_cell_frame (n n' : matrix_name) (i j : nat) (v : float64) (r : Representation) :
  n <> n' -> get_matrix n' (fst (setitem_cell n i j v r)) = get_matrix n' r.
Proof.
  intros Hne. unfold setitem_cell.
  destruct (set_cell (get_matrix n r) i j v); simpl; [apply get_set_matrix_ne; assumption | reflexivity].
Qed.

Lemma setitem_index_frame (n n' : matrix_name) (idx : list nat * list nat)
    (vs : list float64) (r : Representation) :
  n <> n' -> get_matrix n' (fst (setitem_index (n, idx) vs r)) = get_matrix n' r.
Proof.
  intros Hne. unfold setitem_index. destruct idx as [rows cols].
  destruct (rbind _ _); simpl; [apply get_set_matrix_ne; assumption | reflexivity].
Qed.

Lemma on_ssm_idx {A : Type} (f : M Representation A) (self : t) :
  _state_cov_idx (fst (on_ssm f self)) = _state_cov_idx self.
Proof. unfold on_ssm. destruct (f _); reflexivity. Qed.

Lemma on_ssm_matrix {A : Type} (f : M Representation A) (n : matrix_name) (self : t) :
  matrix_of n (fst (on_ssm f self)) = get_matrix n (fst (f (ssm (base self)))).
Proof. unfold on_ssm, matrix_of. destruct (f _); reflexivity. Qed.

Lemma update_idx (p : list float64) (tr : bool) (self : t) :
  _state_cov_idx (fst (update p tr self)) = _state_cov_idx self.
Proof.
  unfold update, bind, getitem.
  destruct (_ !! 0%nat) as [p0|]; simpl; [|reflexivity].
  pose proof (on_ssm_idx (setitem_cell obs_cov 0 0 p0) self) as H1.
  destruct (on_ssm (setitem_cell obs_cov 0 0 p0) self) as [s1 [[]|e]]; simpl in *; [|assumption].
  rewrite <- H1.
  pose proof (on_ssm_idx (setitem_index (_state_cov_idx s1) (drop 1 (MLEModel_update transform_params p tr))) s1) as H2.
  destruct (on_ssm _ s1) as [s2 r2]; simpl in *.
  destruct r2; simpl; assumption.
Qed.

Lemma update_frame (p : list float64) (tr : bool) (self : t) (n : matrix_name) :
  fst (_state_cov_idx self) = state_cov ->
  n <> obs_cov -> n <> state_cov ->
  matrix_of n (fst (update p tr self)) = matrix_of n self.
Proof.
  intros Hidx Hn1 Hn2.
  unfold update, bind, getitem.
  destruct (_ !! 0%nat) as [p0|]; simpl; [|reflexivity].
  pose proof (on_ssm_idx (setitem_cell obs_cov 0 0 p0) self) as H1.
  pose proof (on_ssm_matrix (setitem_cell obs_cov 0 0 p0) n self) as M1.
  rewrite setitem_cell_frame in M1 by congruence.
  fold (matrix_of n self) in M1.
  destruct (on_ssm (setitem_cell obs_cov 0 0 p0) self) as [s1 [[]|e]]; simpl in *; [|assumption].
  rewrite <- M1.
  set (vs := drop 1 _).
  pose proof (on_ssm_matrix (setitem_index (_state_cov_idx s1) vs) n s1) as M2.
  destruct (_state_cov_idx s1) as [nm idx] eqn:E. rewrite <- H1 in Hidx. simpl in Hidx. subst nm.
  rewrite setitem_index_frame in M2 by congruence.
  fold (matrix_of n s1) in M2.
  destruct (on_ssm _ s1) as [s2 r2]; simpl in *.
  destruct r2; simpl; assumption.
Qed.

Lemma updates_snoc (calls : list (list float64 * bool)) (call : list float64 * bool) (self : t) :
  updates (calls ++ [call]) self = fst (update call.1 call.2 (updates calls self)).
Proof. unfold updates. rewrite foldl_app. reflexivity. Qed.

Lemma updates_frame (calls : list (list float64 * bool)) (self : t) (n : matrix_name) :
  fst (_state_cov_idx self) = state_cov ->
  n <> obs_cov -> n <> state_cov ->
  matrix_of n (updates calls self) = matrix_of n self
  /\ _state_cov_idx (updates calls self) = _state_cov_idx self.
Proof.
  intros Hidx Hn1 Hn2.
  induction calls as [|call calls IH] using rev_ind; [split; reflexivity|].
  destruct IH as [IHm IHi].
  rewrite updates_snoc. split.
  - rewrite update_frame; [assumption | | assumption | assumption].
    rewrite IHi. assumption.
  - rewrite update_idx. assumption.
Qed.

(** *** The claims on the constructor and on [update] *)

(** C8: for every observed series, the constructor succeeds with state
    dimension 2 and state-noise dimension 2, the approximate-diffuse
    initialization policy and a log-likelihood burn-in equal to the state
    dimension, 2. *)
Theorem init_dimensions_and_policy (endog : list float64) :
  exists self : t,
    __init__ endog = Ok self
    /\ k_states (base self) = 2%nat
    /\ k_posdef (base self) = 2%nat
    /\ initialization (base self) = Some approximate_diffuse
    /\ loglikelihood_burn (base self) = k_states (base self)
    /\ loglikelihood_burn (base self) = 2%nat.
Proof. exists (constructed endog). repeat split. Qed.

(** C2: on a freshly constructed model, [update] with the constrained
    vector [(a, b, c)] succeeds; afterwards the cell (0,0) of the
    observation covariance is [a], the diagonal of the 2x2 state covariance
    is [(b, c)] and its two off-diagonal cells are 0. *)
Theorem update_writes_covariances (endog : list float64) (a b c : float64) :
  exists self self' : t,
    __init__ endog = Ok self
    /\ update_default [a; b; c] self = (self', Ok tt)
    /\ cell (matrix_of obs_cov self') 0 0 = Some a
    /\ cell (matrix_of state_cov self') 0 0 = Some b
    /\ cell (matrix_of state_cov self') 1 1 = Some c
    /\ cell (matrix_of state_cov self') 0 1 = Some zero
    /\ cell (matrix_of state_cov self') 1 0 = Some zero
    /\ shape (matrix_of state_cov self') = (2, 2)%nat.
Proof.
  exists (constructed endog). eexists.
  split; [reflexivity|]. split; [reflexivity|].
  repeat split.
Qed.

(** C3: for every model the constructor builds and every finite sequence of
    calls of [update], with any parameter vectors, the design matrix is
    still (1, 0), the transition matrix [[1,1],[0,1]] and the selection
    matrix the 2x2 identity; every matrix other than the two covariance
    matrices is as the constructor left it. *)
Theorem structural_matrices_invariant (endog : list float64)
    (calls : list (list float64 * bool)) :
  exists self : t,
    __init__ endog = Ok self
    /\ matrix_of design (updates calls self) = [[one; zero]]
    /\ matrix_of transition (updates calls self) = [[one; one]; [zero; one]]
    /\ matrix_of selection (updates calls self) = [[one; zero]; [zero; one]]
    /\ (forall n : matrix_name,
          n <> obs_cov -> n <> state_cov ->
          matrix_of n (updates calls self) = matrix_of n self).
Proof.
  exists (constructed endog). split; [reflexivity|].
  assert (forall n : matrix_name,
             n <> obs_cov -> n <> state_cov ->
             matrix_of n (updates calls (constructed endog)) = matrix_of n (constructed endog))
    as Hframe.
  { intros n H1 H2. apply (updates_frame calls (constructed endog) n); [reflexivity | assumption..]. }
  repeat split.
  - apply (Hframe design); discriminate.
  - apply (Hframe transition); discriminate.
  - apply (Hframe selection); discriminate.
  - exact Hframe.
Qed.

(** C4: for every observed series [s], the default starting vector of the
    model built from [s] is [(std(s), std(s), std(s))], whatever function
    [np.std] is. *)
Theorem start_params_is_std_thrice (np_std : list float64 -> float64) (s : list float64) :
  exists self : t,
    __init__ s = Ok self
    /\ start_params np_std self = [np_std s; np_std s; np_std s].
Proof. exists (constructed s). split; reflexivity. Qed.

(** C5, at the failing input: on the constant series [1.0, 1.0] the
    standard deviation is 0 and all three starting values are exactly 0. *)
Theorem start_params_zero_on_constant_series :
  exists self : t,
    __init__ [one; one] = Ok self
    /\ start_params Numpy.std self = [zero; zero; zero].
Proof. exists (constructed [one; one]). split; reflexivity. Qed.

(** C6: [update] is idempotent. On every model (in any state its matrices
    can be in) and for every parameter vector and value of [transformed],
    a second call of [update] with the same arguments ends exactly as the
    first did: same matrices, same outcome. *)
Theorem update_idempotent (p : list float64) (tr : bool) (self : t) :
  class_invariant self ->
  update p tr (fst (update p tr self)) = update p tr self.
Proof.
  destruct self as [[en ke ks kp ini lb [oi de oc si trn sel sc]] idx].
  unfold class_invariant. simpl. intros ->.
  unfold update. generalize (MLEModel_update transform_params p tr). intros q.
  destruct q as [|p0 q]; [reflexivity|].
  destruct oc as [|[|x row] rest]; try reflexivity.
  destruct q as [|p1 [|p2 [|p3 q]]]; try reflexivity;
    destruct sc as [|[|a r0] [|[|b [|c r1]] rest']]; reflexivity.
Qed.

Lemma update_idempotent_witness :
  class_invariant (constructed [one; two])
  /\ update [one; two; pi] true (fst (update [one; two; pi] true (constructed [one; two])))
     = update [one; two; pi] true (constructed [one; two]).
Proof.
  split; [reflexivity|].
  apply (update_idempotent [one; two; pi] true (constructed [one; two])). reflexivity.
Defined.

(** *** The parameter transformations *)

Import Float64Facts.

(** C7: for every unconstrained vector of numbers (no entry is NaN), every
    entry of [transform_params] is greater than or equal to 0. *)
Theorem transform_params_nonneg (u : list float64) :
  Forall (fun x => is_nan x = false) u ->
  Forall (fun y => leb zero y = true) (transform_params u).
Proof.
  intros H. unfold transform_params. apply Forall_fmap.
  induction H as [|x u Hx _ IH]; constructor; [|assumption].
  simpl. apply nonneg_leb_zero, mul_self_nonneg, Hx.
Qed.

Lemma transform_params_nonneg_witness :
  Forall (fun x => is_nan x = false) [neg two; zero; pi]
  /\ Forall (fun y => leb zero y = true) (transform_params [neg two; zero; pi]).
Proof.
  assert (Forall (fun x => is_nan x = false) [neg two; zero; pi]) as H
    by (repeat constructor).
  split; [exact H|].
  apply (transform_params_nonneg [neg two; zero; pi] H).
Defined.

(** C1 as stated fails on binary64. The non-negative vector (2, 2, 2) does
    not come back from [untransform_params] followed by
    [transform_params]: each entry comes back as 2.0000000000000004. And
    [transform_params] followed by [untransform_params] sends
    (2^600, 2^600, 2^600) to infinities and (2^-600, 2^-600, 2^-600) to
    zeros, not to the absolute values. *)
Lemma roundtrip_fails_on_float64 :
  Forall (fun x => is_nonneg x = true) [two; two; two]
  /\ transform_params (untransform_params [two; two; two])
     = replicate 3 (S754_finite false 4503599627370497 (-51))
  /\ transform_params (untransform_params [two; two; two]) <> [two; two; two]
  /\ eqb (mul (sqrt two) (sqrt two)) two = false
  /\ untransform_params (transform_params (replicate 3 (of_scaled 1 600)))
     = [inf; inf; inf]
  /\ untransform_params (transform_params (replicate 3 (of_scaled 1 600)))
     <> abs <$> replicate 3 (of_scaled 1 600)
  /\ untransform_params (transform_params (replicate 3 (of_scaled 1 (-600))))
     = [zero; zero; zero]
  /\ untransform_params (transform_params (replicate 3 (of_scaled 1 (-600))))
     <> abs <$> replicate 3 (of_scaled 1 (-600)).
Proof.
  split; [repeat constructor|].
  split; [reflexivity|].
  split; [vm_compute; discriminate|].
  split; [reflexivity|].
  split; [reflexivity|].
  split; [vm_compute; discriminate|].
  split; [reflexivity|].
  vm_compute; discriminate.
Qed.

Lemma mul_abs (x : float64) : mul (abs x) (abs x) = mul x x.
Proof.
  destruct x as [s|s| |s m e]; try reflexivity.
  - destruct s; reflexivity.
  - destruct s; reflexivity.
  - destruct s; reflexivity.
Qed.

Lemma sqrt_mul_self_safe (x : float64) :
  roundtrip_safe x = true -> sqrt (mul x x) = abs x.
Proof.
  unfold roundtrip_safe. intros H.
  apply orb_prop in H as [H|H]; [apply orb_prop in H as [H|H]|].
  - apply sqrt_mul_self, H.
  - destruct x as [[]|s| |s m e]; try discriminate; reflexivity.
  - destruct x as [s|[]| |s m e]; try discriminate; reflexivity.
Qed.

(** C1 as amended: on every vector [u] whose entries are zeros, infinities
    or normal numbers with [2^-511 <= |x| < 2^512], [transform_params]
    followed by [untransform_params] gives [|u|] entry by entry, exactly;
    and [untransform_params] followed by [transform_params] gives back
    every [v] that is the transform of such a [u]. *)
Theorem roundtrip_in_range (u : list float64) :
  Forall (fun x => roundtrip_safe x = true) u ->
  untransform_params (transform_params u) = abs <$> u
  /\ transform_params (untransform_params (transform_params u)) = transform_params u.
Proof.
  intros H.
  assert (untransform_params (transform_params u) = abs <$> u) as E.
  { unfold untransform_params, transform_params.
    induction H as [|x u Hx _ IH]; [reflexivity|].
    rewrite !fmap_cons. rewrite IH. f_equal. apply sqrt_mul_self_safe, Hx. }
  split; [exact E|].
  rewrite E. unfold transform_params.
  clear. induction u as [|x u IH]; [reflexivity|].
  rewrite !fmap_cons. rewrite IH. f_equal. apply mul_abs.
Qed.

Lemma roundtrip_in_range_witness :
  Forall (fun x => roundtrip_safe x = true) [neg two; zero; pi]
  /\ untransform_params (transform_params [neg two; zero; pi]) = [two; zero; pi]
  /\ transform_params (untransform_params (transform_params [neg two; zero; pi]))
     = transform_params [neg two; zero; pi].
Proof.
  assert (Forall (fun x => roundtrip_safe x = true) [neg two; zero; pi]) as H
    by (repeat constructor).
  split; [exact H|].
  exact (roundtrip_in_range [neg two; zero; pi] H).
Defined.

End LocalLinearTrendFacts.

(* ===================================================================== *)
(** * Sizes of arrays *)
(* ===================================================================== *)

Module NumpyFacts.

Lemma two_20 : 2 ^ 20 = 1048576.
Proof. reflexivity. Qed.

Lemma two_60 : 2 ^ 60 = 1152921504606846976.
Proof. reflexivity. Qed.

Lemma two_20_1023 : 2 ^ 20 < 2 ^ 1023.
Proof. apply Z.pow_lt_mono_r; lia. Qed.

(** numpy builds the arrays of fewer than [2^60] entries. *)
Lemma allowed_size (n : Z) : n < 2 ^ 60 -> (Numpy.max_entries <=? n) = false.
Proof. intros H. apply Z.leb_gt. exact H. Qed.

Lemma small_size (n : Z) : n <= 2 ^ 20 -> (Numpy.max_entries <=? n) = false.
Proof. intros H. apply allowed_size. rewrite two_60. rewrite two_20 in H. lia. Qed.

End NumpyFacts.

(* ===================================================================== *)
(** * Properties of [simulate_seasonal_term] *)
(* ===================================================================== *)

Module SeasonalFacts.

Import Seasonal Float64Facts.

(** *** Effects: the exceptions that cannot occur *)

Lemma never_raises_ret {S A : Type} (e : exn) (a : A) :
  never_raises e (ret (S := S) a).
Proof. intros s. discriminate. Qed.

Lemma never_raises_raise {S A : Type} (e e' : exn) :
  e' <> e -> never_raises e (raise (S := S) (A := A) e').
Proof. intros H s. simpl. congruence. Qed.

Lemma never_raises_lift {S A : Type} (e : exn) (r : result A) :
  r <> Raise e -> never_raises e (lift (S := S) r).
Proof. intros H s. exact H. Qed.

Lemma never_raises_bind {S A B : Type} (e : exn) (m : M S A) (k : A -> M S B) :
  never_raises e m -> (forall a, never_raises e (k a)) -> never_raises e (bind m k).
Proof.
  intros Hm Hk s. unfold bind. specialize (Hm s).
  destruct (m s) as [s' [a|e']]; simpl in *; [apply Hk|].
  intros [= ->]. apply Hm. reflexivity.
Qed.

Lemma never_raises_for_each {S A B : Type} (e : exn) (l : list A)
    (body : B -> A -> M S B) (acc : B) :
  (forall b a, never_raises e (body b a)) -> never_raises e (for_each l body acc).
Proof.
  intros Hb. revert acc. induction l as [|x l IH]; intros acc; simpl.
  - apply never_raises_ret.
  - apply never_raises_bind; [apply Hb | intros b; apply IH].
Qed.

Lemma never_raises_getitem {S A : Type} (l : list A) (i : nat) :
  never_raises (S := S) AssertionError (getitem l i).
Proof. unfold getitem. destruct (l !! i); intros s; discriminate. Qed.

Lemma never_raises_setitem {S A : Type} (l : list A) (i : nat) (v : A) :
  never_raises (S := S) AssertionError (setitem l i v).
Proof. unfold setitem. destruct (i <? length l)%nat; intros s; discriminate. Qed.

(** *** The integer test of the assertion *)

Lemma trunc_eqb_Z (f : float64) :
  is_finite f = true -> eqb_Z f (trunc f) = is_integral f.
Proof.
  destruct f as [s|s| |s m e]; try discriminate; intros _; [reflexivity|].
  unfold eqb_Z, trunc, is_integral.
  destruct (Z.leb_spec 0 e) as [He|He]; simpl orb.
  - apply Z.eqb_refl.
  - assert (0 < 2 ^ (- e)) as Hp by (apply Z.pow_pos_nonneg; lia).
    pose proof (Z.div_mod (Z.pos m) (2 ^ (- e)) ltac:(lia)) as Hdm.
    pose proof (Z.mod_pos_bound (Z.pos m) (2 ^ (- e)) Hp) as Hb.
    destruct (Z.eqb_spec (Z.pos m mod 2 ^ (- e)) 0) as [E|E];
      [apply Z.eqb_eq | apply Z.eqb_neq]; destruct s; unfold cond_Zopp; nia.
Qed.

Lemma integer_value_spec (x : pynum) (d : Z) :
  integer_value x = Some d <-> py_int x = Ok d /\ py_eq_int x d = true.
Proof.
  destruct x as [z|f].
  - simpl. split.
    + intros [= ->]. split; [reflexivity | apply Z.eqb_refl].
    + intros [[= ->] _]. reflexivity.
  - destruct f as [s|s| |s m e].
    + simpl. split; [intros [= <-]; split; reflexivity | intros [[= <-] _]; reflexivity].
    + simpl. split; [discriminate | intros [H _]; discriminate].
    + simpl. split; [discriminate | intros [H _]; discriminate].
    + set (f := S754_finite s m e).
      assert (integer_value (PyFloat f) = if is_integral f then Some (trunc f) else None)
        as -> by reflexivity.
      assert (py_int (PyFloat f) = Ok (trunc f)) as -> by reflexivity.
      change (py_eq_int (PyFloat f) d) with (eqb_Z f d).
      rewrite <- (trunc_eqb_Z f eq_refl).
      destruct (eqb_Z f (trunc f)) eqn:E; split.
      * intros [= <-]. split; [reflexivity | exact E].
      * intros [[= <-] _]. reflexivity.
      * discriminate.
      * intros [[= <-] H]. change (eqb_Z f (trunc f) = true) in H. rewrite E in H. discriminate.
Qed.

(** *** The loops *)

Lemma py_range_elements (a : Z) (n : nat) :
  Forall (fun k => a <= k < a + Z.of_nat n) ((fun k => a + Z.of_nat k) <$> seq 0 n).
Proof.
  apply Forall_fmap, Forall_forall. intros k Hk. apply elem_of_seq in Hk. simpl. lia.
Qed.

Lemma py_slice_from_burn_in {A : Type} (d : Z) (l : list A) :
  0 <= d -> Z.of_nat (length l) = 100 * d ->
  py_slice_from (- d) l = drop (Z.to_nat (99 * d)) l.
Proof.
  intros Hd Hl. unfold py_slice_from. f_equal.
  destruct (Z.ltb_spec (- d) 0); lia.
Qed.

Lemma py_slice_from_tail {A : Type} (d : Z) (l : list A) :
  0 <= d -> Z.of_nat (length l) = 100 * d ->
  Z.of_nat (length (py_slice_from (- d) l)) = d.
Proof.
  intros Hd Hl. unfold py_slice_from. rewrite length_drop.
  destruct (Z.ltb_spec (- d) 0); lia.
Qed.

(** *** No step after the assertion raises [AssertionError] *)

Lemma py_float_no_assert (x : pynum) : py_float x <> Raise AssertionError.
Proof. destruct x as [z|f]; simpl; [destruct (is_finite _)|]; discriminate. Qed.

Lemma py_mul_no_assert (x y : pynum) : py_mul x y <> Raise AssertionError.
Proof.
  destruct x as [a|fa], y as [b|fb]; simpl; try discriminate.
  - destruct (is_finite _); discriminate.
  - destruct (is_finite _); discriminate.
Qed.

Lemma py_int_no_assert (x : pynum) : py_int x <> Raise AssertionError.
Proof. destruct x as [z|[s|s| |s m e]]; discriminate. Qed.

Lemma resolve_harmonics_no_assert (p : pynum) (hs : option pynum) :
  resolve_harmonics p hs <> Raise AssertionError.
Proof.
  assert (rbind (py_truediv_2 p)
            (fun half => rbind (py_int (PyFloat (floor half))) (fun n => Ok (PyInt n)))
          <> Raise AssertionError) as H.
  { destruct p as [z|f]; simpl.
    - destruct (is_finite _); simpl; [|discriminate].
      destruct (floor _) as [s|s| |s m e]; discriminate.
    - destruct (floor _) as [s|s| |s m e]; discriminate. }
  unfold resolve_harmonics. destruct hs as [h|]; [|exact H].
  destruct (py_truthy h); [discriminate | exact H].
Qed.

Lemma py_float_div_no_assert (a b : float64) : py_float_div a b <> Raise AssertionError.
Proof. unfold py_float_div. destruct (is_zero b); discriminate. Qed.

Section NoAssert.

Context {rng : Type}.
Variable randn1 : rng -> float64 * rng.
Variables np_cos np_sin : float64 -> float64.
Variable np_sum : list float64 -> float64.

Lemma draw_no_assert : never_raises AssertionError (draw randn1).
Proof. intros g. unfold draw. destruct (randn1 g). discriminate. Qed.

Lemma draws_no_assert (n : nat) : never_raises AssertionError (draws randn1 n).
Proof.
  induction n as [|n IH]; simpl; [apply never_raises_ret|].
  apply never_raises_bind; [apply draw_no_assert|]. intros x.
  apply never_raises_bind; [apply IH|]. intros xs. apply never_raises_ret.
Qed.

Lemma randn_no_assert (n : pynum) : never_raises AssertionError (randn randn1 n).
Proof.
  destruct n as [z|f]; simpl; [|apply never_raises_raise; discriminate].
  destruct (z <? 0); [apply never_raises_raise; discriminate|].
  destruct (_ <=? z); [apply never_raises_raise; discriminate | apply draws_no_assert].
Qed.

Lemma np_zeros_no_assert (n : Z) : never_raises (S := rng) AssertionError (np_zeros n).
Proof.
  unfold np_zeros. destruct (n <? 0); [apply never_raises_raise; discriminate|].
  destruct (_ <=? n); [apply never_raises_raise; discriminate | apply never_raises_ret].
Qed.

Lemma py_range_no_assert (a : Z) (b : pynum) : never_raises (S := rng) AssertionError (py_range a b).
Proof.
  destruct b; simpl; [apply never_raises_ret | apply never_raises_raise; discriminate].
Qed.

Lemma harmonic_step_no_assert (lambda_p noise_std : float64)
    (gamma_jt gamma_star_jt : list float64) (acc : list float64 * list float64) (j : Z) :
  never_raises AssertionError
    (harmonic_step randn1 np_cos np_sin lambda_p noise_std gamma_jt gamma_star_jt acc j).
Proof.
  destruct acc as [a1 a2]. unfold harmonic_step.
  repeat first
    [ apply never_raises_ret
    | apply never_raises_getitem
    | apply never_raises_setitem
    | apply draw_no_assert
    | apply never_raises_lift, py_float_no_assert
    | apply never_raises_bind; [|intros ?] ].
Qed.

Lemma time_step_no_assert (lambda_p noise_std : float64) (harmonics : pynum)
    (acc : list float64 * list float64 * list float64) (t : Z) :
  never_raises AssertionError
    (time_step randn1 np_cos np_sin np_sum lambda_p noise_std harmonics acc t).
Proof.
  destruct acc as [[gj gsj] series]. unfold time_step.
  apply never_raises_bind; [apply py_range_no_assert|]. intros js.
  apply never_raises_bind.
  { apply never_raises_for_each. intros b a. apply harmonic_step_no_assert. }
  intros [a1 a2].
  apply never_raises_bind; [apply never_raises_setitem|]. intros s.
  apply never_raises_ret.
Qed.

(** The outcome of [simulate_seasonal_term] is [AssertionError] exactly
    when the product is a finite float that is not integral. *)
Lemma simulate_assertion (p c : pynum) (noise_std : float64) (hs : option pynum) (g : rng) :
  snd (simulate_seasonal_term randn1 np_cos np_sin np_sum p c noise_std hs g) = Raise AssertionError
  <-> exists f, py_mul p c = Ok (PyFloat f) /\ is_finite f = true /\ is_integral f = false.
Proof.
  unfold simulate_seasonal_term.
  pose proof (py_mul_no_assert p c) as Hmul.
  unfold bind at 1. unfold lift at 1.
  destruct (py_mul p c) as [dur|e].
  2:{ simpl. split; [intros [= ->]; congruence | intros (f & Hf & _); discriminate]. }
  pose proof (py_int_no_assert dur) as Hint.
  unfold bind at 1. unfold lift at 1.
  destruct (py_int dur) as [d|e] eqn:Ed.
  2:{ simpl. split; [intros [= ->]; congruence|].
      intros (f & [= ->] & Hfin & _). destruct f; discriminate. }
  unfold bind at 1.
  destruct (py_eq_int dur d) eqn:Eeq.
  - (* the assertion holds: what follows never raises it *)
    cbn [ret].
    split.
    + intros H. exfalso. revert H.
      refine (never_raises_bind AssertionError _ _ _ _ g).
      { apply never_raises_lift, resolve_harmonics_no_assert. } intros h.
      apply never_raises_bind; [apply never_raises_lift, py_float_no_assert|]. intros fp.
      apply never_raises_bind; [apply never_raises_lift, py_float_div_no_assert|]. intros lam.
      apply never_raises_bind; [apply randn_no_assert|]. intros gj.
      apply never_raises_bind; [apply randn_no_assert|]. intros gsj.
      apply never_raises_bind; [apply np_zeros_no_assert|]. intros series.
      apply never_raises_bind; [apply py_range_no_assert|]. intros ts.
      apply never_raises_bind.
      { apply never_raises_for_each. intros b a. apply time_step_no_assert. }
      intros [[a1 a2] s]. apply never_raises_ret.
    + intros (f & [= ->] & Hfin & Hni). exfalso.
      assert (integer_value (PyFloat f) = Some d) as Hv
        by (apply integer_value_spec; split; assumption).
      simpl in Hv. rewrite Hfin, Hni in Hv. discriminate.
  - cbn [raise]. split; [intros _|reflexivity].
    destruct dur as [z|f].
    + simpl in Ed, Eeq. injection Ed as <-. rewrite Z.eqb_refl in Eeq. discriminate.
    + exists f. split; [reflexivity|].
      assert (is_finite f = true) as Hfin by (destruct f; try discriminate; reflexivity).
      split; [assumption|].
      destruct (is_integral f) eqn:Ei; [exfalso|reflexivity].
      assert (integer_value (PyFloat f) = Some (trunc f)) as Hv
        by (simpl; rewrite Hfin, Ei; reflexivity).
      apply integer_value_spec in Hv as [Hv1 Hv2].
      rewrite Hv1 in Ed. injection Ed as <-. simpl in Eeq, Hv2. congruence.
Qed.

End NoAssert.

(** *** The default number of harmonics *)

Lemma py_int_floor (x : float64) :
  match x with
  | S754_zero s => s = false
  | S754_finite s m e => s = false /\ Z.pos m < 2 ^ 53 /\ e <= 970
  | _ => False
  end ->
  exists h, py_int (PyFloat (floor x)) = Ok h /\ 0 <= h < 2 ^ 1023.
Proof.
  assert (0 < 2 ^ 1023) as H1023 by (apply Z.pow_pos_nonneg; lia).
  destruct x as [s|s| |s m e]; try contradiction.
  - intros ->. exists 0. split; [reflexivity|lia].
  - intros (-> & Hm & He). unfold floor.
    destruct (Z.leb_spec 0 e) as [He0|He0].
    + exists (trunc (S754_finite false m e)). split; [reflexivity|].
      apply (trunc_bounded m e 970); lia.
    + set (q := Z.pos m / 2 ^ (- e)).
      assert (0 < 2 ^ (- e)) by (apply Z.pow_pos_nonneg; lia).
      assert (0 <= q) as Hq0 by (apply Z.div_pos; lia).
      assert (q <= Z.pos m) as Hq1 by (apply Z.div_le_upper_bound; [lia|nia]).
      pose proof (of_scaled_bounded 1 q 0) as Hb.
      assert (Zdigits2 q <= 53) as Hdq by (apply Zdigits2_le; lia).
      specialize (Hb ltac:(lia) ltac:(lia)).
      change (binary_normalize prec emax q 0 false) with (of_scaled q 0).
      replace (q <? 0) with false in Hb by (symmetry; apply Z.ltb_ge; assumption).
      destruct (of_scaled q 0) as [s'|s'| |s' m' e']; try contradiction.
      * exists 0. split; [reflexivity|lia].
      * destruct Hb as (-> & Hm' & He').
        exists (trunc (S754_finite false m' e')). split; [reflexivity|].
        pose proof (trunc_bounded m' e' 1 Hm' He' ltac:(lia)) as Ht.
        assert (2 ^ (53 + 1) <= 2 ^ 1023) by (apply Z.pow_le_mono_r; lia). lia.
Qed.

(** A positive periodicity below [2^1023] converts to a float that is not
    zero and has a default number of harmonics. *)
Lemma positive_periodicity (p : pynum) :
  py_positive p = true ->
  exists fp h,
    py_float p = Ok fp /\ is_zero fp = false
    /\ resolve_harmonics p None = Ok (PyInt h) /\ 0 <= h < 2 ^ 1023.
Proof.
  assert (0 < 2 ^ 1023) as H1023 by (apply Z.pow_pos_nonneg; lia).
  destruct p as [z|f]; unfold py_positive.
  - intros H. apply andb_prop in H as [H0 H1].
    apply Z.ltb_lt in H0, H1.
    assert (Zdigits2 z <= 1023) as Hdz by (apply Zdigits2_le; lia).
    pose proof (of_scaled_bounded 970 z (-1) ltac:(lia) ltac:(lia)) as Hhalf.
    replace (z <? 0) with false in Hhalf by (symmetry; apply Z.ltb_ge; lia).
    destruct (py_int_floor (of_scaled z (-1))) as (h & Hh & Hhb).
    { destruct (of_scaled z (-1)); assumption. }
    assert (is_finite (of_scaled z (-1)) = true) as Hfin
      by (destruct (of_scaled z (-1)); try contradiction; reflexivity).
    exists (of_Z z), h.
    split; [unfold py_float; rewrite of_Z_finite by lia; reflexivity|].
    split; [apply of_Z_nonzero; assumption|].
    split; [|assumption].
    unfold resolve_harmonics, py_truediv_2. cbv zeta. rewrite Hfin.
    cbn [rbind]. rewrite Hh. reflexivity.
  - destruct f as [s|s| |[] m e]; try discriminate.
    intros H. apply Z.leb_le in H.
    pose proof (div_two_bounded m e H) as Hhalf.
    destruct (py_int_floor (div (S754_finite false m e) two) Hhalf) as (h & Hh & Hhb).
    exists (S754_finite false m e), h.
    split; [reflexivity|]. split; [reflexivity|]. split; [|assumption].
    unfold resolve_harmonics, py_truediv_2.
    cbn [rbind]. rewrite Hh. reflexivity.
Qed.

(** *** The claims on [simulate_seasonal_term] *)

Section Claims.

Context {rng : Type}.
Variable randn1 : rng -> float64 * rng.
Variables np_cos np_sin : float64 -> float64.
Variable np_sum : list float64 -> float64.

(** C10 as amended: a falsy [harmonics] (0, 0.0, -0.0) behaves as an
    omitted one. The whole call gives the same result from the same
    generator state, and the number of harmonics used is
    [int(np.floor(periodicity / 2))]. Zero harmonics can be simulated, but
    never by the argument itself: the number used is falsy (zero) only
    when [harmonics] is falsy or omitted and that default is zero. *)
Theorem falsy_harmonics_is_default (p c : pynum) (noise_std : float64) (h : pynum) (g : rng) :
  py_truthy h = false ->
  simulate_seasonal_term randn1 np_cos np_sin np_sum p c noise_std (Some h) g
  = simulate_seasonal_term randn1 np_cos np_sin np_sum p c noise_std None g
  /\ resolve_harmonics p (Some h)
     = rbind (py_truediv_2 p) (fun half =>
       rbind (py_int (PyFloat (floor half))) (fun n => Ok (PyInt n)))
  /\ (forall (hs : option pynum) (n : pynum),
        resolve_harmonics p hs = Ok n -> py_truthy n = false ->
        resolve_harmonics p None = Ok n
        /\ match hs with
           | Some h' => py_truthy h' = false
           | None => True
           end).
Proof.
  intros Hh.
  assert (resolve_harmonics p (Some h) = resolve_harmonics p None) as E
    by (unfold resolve_harmonics; rewrite Hh; reflexivity).
  split; [|split].
  - unfold simulate_seasonal_term. rewrite E. reflexivity.
  - rewrite E. reflexivity.
  - intros [h'|] n Hres Hn; [|split; [exact Hres | exact I]].
    unfold resolve_harmonics in Hres |- *.
    destruct (py_truthy h') eqn:Eh'; [|split; [exact Hres | reflexivity]].
    injection Hres as ->. congruence.
Qed.

End Claims.

Lemma falsy_harmonics_is_default_witness :
  py_truthy (PyInt 0) = false
  /\ sample_run (PyInt 10) (PyFloat (of_Z 30)) (Some (PyInt 0))
     = sample_run (PyInt 10) (PyFloat (of_Z 30)) None.
Proof.
  split; [reflexivity|].
  exact (proj1 (falsy_harmonics_is_default sample_randn1 sample_cos sample_sin Numpy.sum
                  (PyInt 10) (PyFloat (of_Z 30)) one (PyInt 0) 0%nat eq_refl)).
Defined.

(** C10 as stated fails in its last clause. With periodicity 1 the default
    number of harmonics is [int(np.floor(1 / 2))], which is 0: the call
    with [harmonics=0] (as the call without the argument) simulates zero
    harmonics, and returns normally three sums of no entry. *)
Lemma zero_harmonics_can_be_requested :
  resolve_harmonics (PyInt 1) (Some (PyInt 0)) = Ok (PyInt 0)
  /\ sample_run (PyInt 1) (PyInt 3) (Some (PyInt 0)) = (0%nat, Ok [zero; zero; zero]).
Proof. split; vm_compute; reflexivity. Qed.

End SeasonalFacts.

Module LocalLinearTrendMore.

Import LocalLinearTrend LocalLinearTrendStates.

Lemma update_with_covariances (endog : list float64) (x a b : float64)
    (p : list float64) (tr : bool) :
  exists x' a' b',
    fst (update p tr (with_covariances endog x a b)) = with_covariances endog x' a' b'.
Proof.
  unfold update. generalize (MLEModel_update transform_params p tr). intros q.
  destruct q as [|p0 [|p1 [|p2 [|p3 q]]]]; simpl; eauto.
Qed.

Lemma updates_with_covariances (endog : list float64) (calls : list (list float64 * bool)) :
  exists x a b, updates calls (constructed endog) = with_covariances endog x a b.
Proof.
  induction calls as [|call calls IH] using rev_ind.
  - exists zero, zero, zero. reflexivity.
  - destruct IH as (x & a & b & IH).
    unfold updates in *. rewrite foldl_app. simpl. rewrite IH.
    apply update_with_covariances.
Qed.

(** X1: after any sequence of calls of [update] on a constructed model, the
    observation covariance is still 1x1 and the state covariance is still
    a 2x2 diagonal matrix: its off-diagonal cells are exactly 0. *)
Theorem state_cov_stays_diagonal (endog : list float64)
    (calls : list (list float64 * bool)) :
  exists self : t,
    __init__ endog = Ok self
    /\ exists x a b,
         matrix_of obs_cov (updates calls self) = [[x]]
         /\ matrix_of state_cov (updates calls self) = [[a; zero]; [zero; b]].
Proof.
  exists (constructed endog). split; [reflexivity|].
  destruct (updates_with_covariances endog calls) as (x & a & b & ->).
  exists x, a, b. split; reflexivity.
Qed.

(** X2: the last call wins. On a constructed model, whatever calls of
    [update] came before, [update] with a 3-vector succeeds and leaves the
    covariances determined by that vector alone: [(a, b, c)] itself when
    [transformed] is true, its squares when it is false. *)
Theorem update_overwrites_history (endog : list float64)
    (calls : list (list float64 * bool)) (a b c : float64) (tr : bool) :
  exists self : t,
    __init__ endog = Ok self
    /\ update [a; b; c] tr (updates calls self)
       = (if tr then with_covariances endog a b c
          else with_covariances endog (mul a a) (mul b b) (mul c c), Ok tt).
Proof.
  exists (constructed endog). split; [reflexivity|].
  destruct (updates_with_covariances endog calls) as (x0 & a0 & b0 & ->).
  destruct tr; reflexivity.
Qed.

(** X3: a 2-vector is accepted too: its second entry is broadcast to both
    diagonal cells of the state covariance. *)
Theorem update_broadcasts_two_vector (endog : list float64)
    (calls : list (list float64 * bool)) (a b : float64) :
  exists self : t,
    __init__ endog = Ok self
    /\ update [a; b] true (updates calls self) = (with_covariances endog a b b, Ok tt).
Proof.
  exists (constructed endog). split; [reflexivity|].
  destruct (updates_with_covariances endog calls) as (x0 & a0 & b0 & ->).
  reflexivity.
Qed.

(** X4: on a constructed model, after any earlier calls, [update] succeeds
    exactly on vectors of 2 or 3 entries. An empty vector raises
    [IndexError] and leaves the model untouched; a vector of 1 or of more
    than 3 entries raises [ValueError] after the observation covariance has
    already been overwritten, the state covariance staying as it was. *)
Theorem update_length_errors (endog : list float64)
    (calls : list (list float64 * bool)) (p : list float64) (tr : bool) :
  exists self : t,
    __init__ endog = Ok self
    /\ (snd (update p tr (updates calls self)) = Ok tt
        <-> length p = 2%nat \/ length p = 3%nat)
    /\ (p = [] -> update p tr (updates calls self) = (updates calls self, Raise IndexError))
    /\ (length p = 1%nat \/ (4 <= length p)%nat ->
        snd (update p tr (updates calls self)) = Raise ValueError
        /\ matrix_of obs_cov (fst (update p tr (updates calls self)))
           = [[default zero (head (MLEModel_update transform_params p tr))]]
        /\ matrix_of state_cov (fst (update p tr (updates calls self)))
           = matrix_of state_cov (updates calls self)).
Proof.
  exists (constructed endog). split; [reflexivity|].
  destruct (updates_with_covariances endog calls) as (x0 & a0 & b0 & ->).
  destruct p as [|p0 [|p1 [|p2 [|p3 p]]]]; destruct tr; simpl;
    (split; [split; [intros H; try discriminate; auto | intros [H|H]; try discriminate; reflexivity]|]);
    (split; [intros H; try discriminate; reflexivity|]);
    intros [H|H]; try discriminate; try lia; repeat split.
Qed.

(** X5: squaring discards the sign: a vector and its negation have the same
    transform. *)
Theorem transform_params_even (u : list float64) :
  transform_params (neg <$> u) = transform_params u.
Proof.
  unfold transform_params. induction u as [|x u IH]; [reflexivity|].
  rewrite !fmap_cons, IH. f_equal.
  destruct x as [[]|[]| |[] m e]; reflexivity.
Qed.

End LocalLinearTrendMore.

Module SeasonalMore.

Import Seasonal SeasonalScript Float64Facts NumpyFacts SeasonalFacts.

(** *** Counting the draws *)

Section Draws.

Context {rng : Type}.
Variable randn1 : rng -> float64 * rng.
Variables np_cos np_sin : float64 -> float64.
Variable np_sum : list float64 -> float64.

Lemma advance_add (a b : nat) (g : rng) : advance randn1 (a + b) g = advance randn1 b (advance randn1 a g).
Proof. unfold advance. rewrite Nat.add_comm. apply Nat.iter_add. Qed.

Lemma after_ret {A : Type} (a : A) (g : rng) (P : A -> Prop) :
  P a -> returns_after randn1 0 (ret a) g P.
Proof. intros H. exists a. split; [reflexivity | assumption]. Qed.

Lemma after_lift {A : Type} (a : A) (g : rng) (P : A -> Prop) :
  P a -> returns_after randn1 0 (lift (Ok a)) g P.
Proof. intros H. exists a. split; [reflexivity | assumption]. Qed.

Lemma after_bind {A B : Type} (k1 k2 : nat) (m : M rng A) (f : A -> M rng B) (g : rng)
    (P : A -> Prop) (Q : B -> Prop) :
  returns_after randn1 k1 m g P ->
  (forall a, P a -> returns_after randn1 k2 (f a) (advance randn1 k1 g) Q) ->
  returns_after randn1 (k1 + k2) (bind m f) g Q.
Proof.
  intros (a & Hm & Ha) Hf. destruct (Hf a Ha) as (b & Hfb & Hb).
  exists b. split; [|assumption].
  unfold bind. rewrite Hm, Hfb, advance_add. reflexivity.
Qed.

Lemma after_mono {A : Type} (k : nat) (m : M rng A) (g : rng) (P Q : A -> Prop) :
  returns_after randn1 k m g P -> (forall a, P a -> Q a) -> returns_after randn1 k m g Q.
Proof. intros (a & Hm & Ha) H. exists a. split; [assumption | apply H, Ha]. Qed.

Lemma after_weaken {A : Type} (k k' : nat) (m : M rng A) (g : rng) (P : A -> Prop) :
  k = k' -> returns_after randn1 k m g P -> returns_after randn1 k' m g P.
Proof. intros ->. exact id. Qed.

Lemma after_getitem {A : Type} (l : list A) (i : nat) (g : rng) :
  (i < length l)%nat -> returns_after randn1 0 (getitem l i) g (fun a => l !! i = Some a).
Proof.
  intros Hi. unfold getitem.
  destruct (lookup_lt_is_Some_2 l i Hi) as [a Ha]. rewrite Ha.
  apply after_ret. reflexivity.
Qed.

Lemma after_setitem {A : Type} (l : list A) (i : nat) (v : A) (g : rng) :
  (i < length l)%nat -> returns_after randn1 0 (setitem l i v) g (fun l' => l' = <[i := v]> l).
Proof.
  intros Hi. unfold setitem. apply Nat.ltb_lt in Hi. rewrite Hi.
  apply after_ret. reflexivity.
Qed.

Lemma after_draw (g : rng) : returns_after randn1 1 (draw randn1) g (fun _ => True).
Proof.
  unfold draw, returns_after, advance. simpl.
  destruct (randn1 g) as [x g']. exists x. split; [reflexivity | exact I].
Qed.

Lemma after_draws (n : nat) (g : rng) :
  returns_after randn1 n (draws randn1 n) g (fun l => length l = n).
Proof.
  revert g. induction n as [|n IH]; intros g; simpl draws.
  - apply after_ret. reflexivity.
  - apply (after_weaken (1 + (n + 0))); [lia|].
    apply (after_bind _ _ _ _ _ (fun _ => True)); [apply after_draw|].
    intros x _.
    apply (after_bind _ _ _ _ _ (fun l => length l = n)); [apply IH|].
    intros xs Hxs. apply after_ret. simpl. rewrite Hxs. reflexivity.
Qed.

Lemma after_for_each {A B : Type} (k : nat) (I : B -> Prop) (E : A -> Prop)
    (l : list A) (body : B -> A -> M rng B) (acc : B) (g : rng) :
  Forall E l -> I acc ->
  (forall b a g', E a -> I b -> returns_after randn1 k (body b a) g' I) ->
  returns_after randn1 (length l * k) (for_each l body acc) g I.
Proof.
  intros Hl Hacc Hbody. revert acc g Hacc.
  induction Hl as [|x l Hx _ IH]; intros acc g Hacc; simpl for_each.
  - apply after_ret, Hacc.
  - apply (after_weaken (k + length l * k)); [simpl; lia|].
    apply (after_bind _ _ _ _ _ I); [apply Hbody; assumption|].
    intros b Hb. apply IH, Hb.
Qed.

Lemma py_float_small (j : Z) : 0 <= j < 2 ^ 1023 -> py_float (PyInt j) = Ok (of_Z j).
Proof.
  intros Hj. unfold py_float. rewrite of_Z_finite; [reflexivity|]. lia.
Qed.

Lemma after_harmonic_step (L : nat) (lambda_p noise_std : float64)
    (gamma_jt gamma_star_jt : list float64) (acc : list float64 * list float64)
    (j : Z) (g : rng) :
  length gamma_jt = L -> length gamma_star_jt = L ->
  length acc.1 = L /\ length acc.2 = L ->
  1 <= j <= Z.of_nat L -> (exists fj, py_float (PyInt j) = Ok fj) ->
  returns_after randn1 2
    (harmonic_step randn1 np_cos np_sin lambda_p noise_std gamma_jt gamma_star_jt acc j) g
    (fun acc' => length acc'.1 = L /\ length acc'.2 = L).
Proof.
  intros H1 H2 [H3 H4] Hj [fj0 Hf]. destruct acc as [a1 a2]. simpl in H3, H4.
  unfold harmonic_step. rewrite Hf.
  assert (Z.to_nat (j - 1) < L)%nat as Hi by lia.
  apply (after_weaken (0 + (0 + (0 + (1 + (0 + (0 + (0 + (1 + (0 + 0)))))))))); [reflexivity|].
  apply (after_bind _ _ _ _ _ (fun _ => True)); [apply after_lift; exact I|]. intros fj _.
  apply (after_bind _ _ _ _ _ (fun _ => True)).
  { apply (after_mono _ _ _ _ _ (after_getitem gamma_jt (Z.to_nat (j - 1)) _ ltac:(lia))). intros; exact I. }
  intros a _.
  apply (after_bind _ _ _ _ _ (fun _ => True)).
  { apply (after_mono _ _ _ _ _ (after_getitem gamma_star_jt (Z.to_nat (j - 1)) _ ltac:(lia))). intros; exact I. }
  intros b _.
  apply (after_bind _ _ _ _ _ (fun _ => True)); [apply after_draw|]. intros e _.
  apply (after_bind _ _ _ _ _ (fun l => length l = L)).
  { apply (after_mono _ _ _ _ _ (after_setitem a1 (Z.to_nat (j - 1)) _ _ ltac:(lia))).
    intros ? ->. rewrite length_insert. assumption. }
  intros a1' Ha1.
  apply (after_bind _ _ _ _ _ (fun _ => True)).
  { apply (after_mono _ _ _ _ _ (after_getitem gamma_jt (Z.to_nat (j - 1)) _ ltac:(lia))). intros; exact I. }
  intros a' _.
  apply (after_bind _ _ _ _ _ (fun _ => True)).
  { apply (after_mono _ _ _ _ _ (after_getitem gamma_star_jt (Z.to_nat (j - 1)) _ ltac:(lia))). intros; exact I. }
  intros b' _.
  apply (after_bind _ _ _ _ _ (fun _ => True)); [apply after_draw|]. intros e' _.
  apply (after_bind _ _ _ _ _ (fun l => length l = L)).
  { apply (after_mono _ _ _ _ _ (after_setitem a2 (Z.to_nat (j - 1)) _ _ ltac:(lia))).
    intros ? ->. rewrite length_insert. assumption. }
  intros a2' Ha2.
  apply after_ret. simpl. split; assumption.
Qed.

End Draws.

(** *** Draws of a whole call *)

Section Runs.

Context {rng : Type}.
Variable randn1 : rng -> float64 * rng.
Variables np_cos np_sin : float64 -> float64.
Variable np_sum : list float64 -> float64.

Lemma bind_ok {A B : Type} (m : M rng A) (f : A -> M rng B) (g g' : rng) (a : A) :
  m g = (g', Ok a) -> bind m f g = f a g'.
Proof. intros H. unfold bind. rewrite H. reflexivity. Qed.

Lemma bind_raise {A B : Type} (m : M rng A) (f : A -> M rng B) (g g' : rng) (e : exn) :
  m g = (g', Raise e) -> bind m f g = (g', Raise e).
Proof. intros H. unfold bind. rewrite H. reflexivity. Qed.

Lemma for_each_app {A B : Type} (l1 l2 : list A) (body : B -> A -> M rng B) (acc : B) (g : rng) :
  for_each (l1 ++ l2) body acc g = bind (for_each l1 body acc) (for_each l2 body) g.
Proof.
  revert acc g. induction l1 as [|x l1 IH]; intros acc g; [reflexivity|].
  change (for_each ((x :: l1) ++ l2) body acc g)
    with (bind (body acc x) (for_each (l1 ++ l2) body) g).
  change (for_each (x :: l1) body acc) with (bind (body acc x) (for_each l1 body)).
  unfold bind. destruct (body acc x g) as [g' [acc'|e]]; [|reflexivity].
  rewrite IH. reflexivity.
Qed.

Lemma for_each_one {A B : Type} (x : A) (body : B -> A -> M rng B) (acc : B) (g : rng) :
  for_each [x] body acc g = body acc x g.
Proof.
  simpl. unfold bind. destruct (body acc x g) as [g' [acc'|e]]; reflexivity.
Qed.

Lemma after_randn (h : Z) (g : rng) :
  0 <= h <= 2 ^ 20 ->
  returns_after randn1 (Z.to_nat h) (randn randn1 (PyInt h)) g (fun l => length l = Z.to_nat h).
Proof.
  intros Hh. unfold randn.
  replace (h <? 0) with false by (symmetry; apply Z.ltb_ge; lia).
  rewrite small_size by lia.
  apply after_draws.
Qed.

Lemma after_time_step (L T : nat) (lambda_p noise_std : float64) (h : Z)
    (acc : list float64 * list float64 * list float64) (t : Z) (g : rng) :
  Z.to_nat h = L -> 0 <= h < 2 ^ 1023 ->
  (length acc.1.1 = L /\ length acc.1.2 = L /\ length acc.2 = T) ->
  0 <= t < Z.of_nat T ->
  returns_after randn1 (L * 2)
    (time_step randn1 np_cos np_sin np_sum lambda_p noise_std (PyInt h) acc t) g
    (fun acc' => length acc'.1.1 = L /\ length acc'.1.2 = L /\ length acc'.2 = T).
Proof.
  intros HL Hh (H1 & H2 & H3) Ht. destruct acc as [[gj gsj] series]. simpl in H1, H2, H3.
  unfold time_step. cbn [py_succ py_range].
  apply (after_weaken randn1 (0 + (L * 2 + (0 + 0)))); [lia|].
  apply (after_bind _ _ _ _ _ _ (fun js => Forall (fun k => 1 <= k < 1 + Z.of_nat L) js /\ length js = L)).
  { apply after_ret. replace (Z.to_nat (h + 1 - 1)) with L by lia.
    split; [apply py_range_elements | rewrite length_fmap, length_seq; reflexivity]. }
  intros js [Hjs Hlen].
  apply (after_bind _ _ _ _ _ _ (fun acc' => length acc'.1 = L /\ length acc'.2 = L)).
  { rewrite <- Hlen at 1.
    apply (after_for_each _ _ _ (fun k => 1 <= k < 1 + Z.of_nat L)); [assumption| |].
    - simpl. rewrite !length_replicate. split; assumption.
    - intros b j g' Hj Hb. apply after_harmonic_step; try assumption; [lia|].
      exists (of_Z j). apply py_float_small. lia. }
  intros [a1 a2] [Ha1 Ha2]. simpl in Ha1, Ha2.
  apply (after_bind _ _ _ _ _ _ (fun l => length l = T)).
  { apply (after_mono _ _ _ _ _ _ (after_setitem randn1 series (Z.to_nat t) _ _ ltac:(lia))).
    intros ? ->. rewrite length_insert. assumption. }
  intros series' Hs. apply after_ret. simpl. repeat split; assumption.
Qed.

(** A time step stores the sum of the harmonics it has computed in
    [series[t]], and changes no other entry of [series]. *)
Lemma time_step_series (lambda_p noise_std : float64) (harmonics : pynum)
    (acc acc' : list float64 * list float64 * list float64) (t : Z) (g g' : rng) :
  time_step randn1 np_cos np_sin np_sum lambda_p noise_std harmonics acc t g = (g', Ok acc') ->
  acc'.2 = <[Z.to_nat t := np_sum acc'.1.1]> acc.2.
Proof.
  destruct acc as [[gj gsj] series]. unfold time_step, bind.
  destruct (py_range 1 (py_succ harmonics) g) as [g1 [js|e]]; [|discriminate].
  destruct (for_each js _ _ g1) as [g2 [[a1 a2]|e]]; [|discriminate].
  unfold setitem. destruct (_ <? _)%nat; [|discriminate].
  intros [= <- <-]. reflexivity.
Qed.

(** The loop over [t] cut after [k] steps runs to its end, and entry [j]
    of the series it leaves is the sum of the harmonics as they are after
    [j + 1] steps. *)
Lemma steps_series (L T : nat) (lambda_p noise_std : float64) (h : Z)
    (acc : list float64 * list float64 * list float64) (g : rng) (k : nat) :
  Z.to_nat h = L -> 0 <= h < 2 ^ 1023 ->
  (length acc.1.1 = L /\ length acc.1.2 = L /\ length acc.2 = T) ->
  (k <= T)%nat ->
  exists g' acc',
    for_each ((fun t => 0 + Z.of_nat t) <$> seq 0 k)
      (time_step randn1 np_cos np_sin np_sum lambda_p noise_std (PyInt h)) acc g
    = (g', Ok acc')
    /\ (length acc'.1.1 = L /\ length acc'.1.2 = L /\ length acc'.2 = T)
    /\ forall j : nat, (j < k)%nat ->
         exists gj accj,
           for_each ((fun t => 0 + Z.of_nat t) <$> seq 0 (S j))
             (time_step randn1 np_cos np_sin np_sum lambda_p noise_std (PyInt h)) acc g
           = (gj, Ok accj)
           /\ acc'.2 !! j = Some (np_sum accj.1.1).
Proof.
  intros HL Hh Hacc. induction k as [|k IH]; intros Hk.
  - exists g, acc. split; [reflexivity|]. split; [assumption|]. intros j Hj. lia.
  - destruct (IH ltac:(lia)) as (g1 & acc1 & Hrun & Hlen & Hprev).
    destruct (after_time_step L T lambda_p noise_std h acc1 (0 + Z.of_nat k) g1
                HL Hh Hlen ltac:(lia)) as (acc2 & Hstep & Hlen2).
    assert (for_each ((fun t => 0 + Z.of_nat t) <$> seq 0 (S k))
              (time_step randn1 np_cos np_sin np_sum lambda_p noise_std (PyInt h)) acc g
            = (advance randn1 (L * 2) g1, Ok acc2)) as Hrun2.
    { rewrite seq_S, fmap_app, for_each_app.
      rewrite (bind_ok _ _ _ _ _ Hrun).
      change ((fun t => 0 + Z.of_nat t) <$> [(0 + k)%nat]) with [0 + Z.of_nat k].
      rewrite for_each_one. exact Hstep. }
    exists (advance randn1 (L * 2) g1), acc2.
    split; [exact Hrun2|]. split; [exact Hlen2|].
    intros j Hj. pose proof (time_step_series _ _ _ _ _ _ _ _ Hstep) as Hs.
    replace (Z.to_nat (0 + Z.of_nat k)) with k in Hs by lia.
    destruct (Nat.eq_dec j k) as [->|Hne].
    + exists (advance randn1 (L * 2) g1), acc2. split; [exact Hrun2|].
      rewrite Hs. apply list_lookup_insert_eq. destruct Hlen as (_ & _ & ->). lia.
    + destruct (Hprev j ltac:(lia)) as (gj & accj & Hj1 & Hj2).
      exists gj, accj. split; [assumption|].
      rewrite Hs, list_lookup_insert_ne by lia. assumption.
Qed.

(** When the preparatory steps succeed and the arrays are small, the call
    returns [d] entries and has drawn [h] numbers for each of the two
    initial vectors and two per harmonic and time step. *)
Lemma after_simulate (p c : pynum) (noise_std : float64) (hs : option pynum) (g : rng)
    (dur : pynum) (d h : Z) (fp : float64) :
  py_mul p c = Ok dur -> integer_value dur = Some d -> 0 <= d -> 100 * d <= 2 ^ 20 ->
  resolve_harmonics p hs = Ok (PyInt h) -> 0 <= h <= 2 ^ 20 ->
  py_float p = Ok fp -> is_zero fp = false ->
  returns_after randn1 (Z.to_nat (2 * h * (1 + 100 * d)))
    (simulate_seasonal_term randn1 np_cos np_sin np_sum p c noise_std hs) g
    (fun wanted_series => Z.of_nat (length wanted_series) = d).
Proof.
  intros Hmul Hint Hd Hd' Hres Hh Hfp Hnz.
  pose proof two_20_1023 as H1023.
  apply integer_value_spec in Hint as [Hint Heq].
  unfold simulate_seasonal_term.
  rewrite Hmul, Hres, Hfp.
  set (L := Z.to_nat h). set (T := Z.to_nat (100 * d)).
  apply (after_weaken randn1
           (0 + (0 + (0 + (0 + (0 + (0 + (L + (L + (0 + (0 + (T * (L * 2) + 0)))))))))))).
  { subst L T. nia. }
  apply (after_bind _ _ _ _ _ _ (fun x => x = dur)); [apply after_lift; reflexivity|].
  intros ? ->. rewrite Hint.
  apply (after_bind _ _ _ _ _ _ (fun x => x = d)); [apply after_lift; reflexivity|].
  intros ? ->. rewrite Heq.
  apply (after_bind _ _ _ _ _ _ (fun _ => True)); [apply after_ret; exact I|].
  intros _ _.
  apply (after_bind _ _ _ _ _ _ (fun x => x = PyInt h)); [apply after_lift; reflexivity|].
  intros ? ->.
  apply (after_bind _ _ _ _ _ _ (fun x => x = fp)); [apply after_lift; reflexivity|].
  intros ? ->.
  unfold py_float_div. rewrite Hnz.
  apply (after_bind _ _ _ _ _ _ (fun _ => True)); [apply after_lift; exact I|].
  intros lambda_p _.
  apply (after_bind _ _ _ _ _ _ (fun l => length l = L)); [apply after_randn; assumption|].
  intros gamma_jt Hgj.
  apply (after_bind _ _ _ _ _ _ (fun l => length l = L)); [apply after_randn; assumption|].
  intros gamma_star_jt Hgsj.
  unfold np_zeros.
  replace (100 * d <? 0) with false by (symmetry; apply Z.ltb_ge; lia).
  rewrite small_size by assumption.
  apply (after_bind _ _ _ _ _ _ (fun l => length l = T)).
  { apply after_ret, length_replicate. }
  intros series Hs.
  cbn [py_range].
  apply (after_bind _ _ _ _ _ _
           (fun ts => Forall (fun k => 0 <= k < 0 + Z.of_nat T) ts /\ length ts = T)).
  { apply after_ret. replace (100 * d - 0) with (100 * d) by lia.
    split; [apply py_range_elements | rewrite length_fmap, length_seq; reflexivity]. }
  intros ts [Hts Hlen].
  apply (after_bind _ _ _ _ _ _
           (fun acc => length acc.1.1 = L /\ length acc.1.2 = L /\ length acc.2 = T)).
  { rewrite <- Hlen at 1.
    apply (after_for_each _ _ _ (fun k => 0 <= k < 0 + Z.of_nat T)); [assumption| |].
    - simpl. rewrite !length_fmap. repeat split; assumption.
    - intros b t g' Ht Hb. apply after_time_step; try assumption; try reflexivity; lia. }
  intros [[a1 a2] series'] (_ & _ & Hs'). simpl in Hs'.
  apply after_ret. apply py_slice_from_tail; [assumption|]. rewrite Hs'. subst T. lia.
Qed.

(** The call is its first lines, the loop over [t] from the two initial
    vectors and a series of zeros, and the slice; [simulate_steps] is the
    same loop cut short. *)
Lemma simulate_from_loop (p c : pynum) (noise_std : float64) (hs : option pynum) (g : rng)
    (dur : pynum) (d h : Z) (fp : float64) :
  py_mul p c = Ok dur -> integer_value dur = Some d -> 0 <= d -> 100 * d <= 2 ^ 20 ->
  resolve_harmonics p hs = Ok (PyInt h) -> 0 <= h <= 2 ^ 20 ->
  py_float p = Ok fp -> is_zero fp = false ->
  exists (g0 : rng) (acc0 : list float64 * list float64 * list float64),
    (length acc0.1.1 = Z.to_nat h /\ length acc0.1.2 = Z.to_nat h
     /\ length acc0.2 = Z.to_nat (100 * d))
    /\ (forall k : nat,
          simulate_steps randn1 np_cos np_sin np_sum p noise_std h d k g
          = for_each ((fun t => 0 + Z.of_nat t) <$> seq 0 k)
              (time_step randn1 np_cos np_sin np_sum (div (mul two pi) fp) noise_std (PyInt h))
              acc0 g0)
    /\ (forall (g' : rng) (acc' : list float64 * list float64 * list float64),
          for_each ((fun t => 0 + Z.of_nat t) <$> seq 0 (Z.to_nat (100 * d)))
            (time_step randn1 np_cos np_sin np_sum (div (mul two pi) fp) noise_std (PyInt h))
            acc0 g0
          = (g', Ok acc') ->
          simulate_seasonal_term randn1 np_cos np_sin np_sum p c noise_std hs g
          = (g', Ok (py_slice_from (- d) acc'.2))).
Proof.
  intros Hmul Hint Hd Hd' Hres Hh Hfp Hnz.
  apply integer_value_spec in Hint as [Hint Heq].
  destruct (after_randn h g Hh) as (l1 & Hl1 & Hlen1).
  destruct (after_randn h (advance randn1 (Z.to_nat h) g) Hh) as (l2 & Hl2 & Hlen2).
  exists (advance randn1 (Z.to_nat h) (advance randn1 (Z.to_nat h) g)),
    (mul noise_std <$> l1, mul noise_std <$> l2, replicate (Z.to_nat (100 * d)) zero).
  split; [|split].
  - simpl. rewrite !length_fmap, length_replicate. repeat split; assumption.
  - intros k. unfold simulate_steps. rewrite Hfp.
    rewrite (bind_ok _ _ g g fp eq_refl).
    unfold py_float_div. rewrite Hnz.
    rewrite (bind_ok _ _ g g _ eq_refl).
    rewrite (bind_ok _ _ _ _ _ Hl1).
    rewrite (bind_ok _ _ _ _ _ Hl2).
    unfold np_zeros.
    replace (100 * d <? 0) with false by (symmetry; apply Z.ltb_ge; lia).
    rewrite small_size by assumption.
    rewrite (bind_ok _ _ _ _ _ eq_refl).
    cbn [py_range].
    rewrite (bind_ok _ _ _ _ _ eq_refl).
    replace (Z.to_nat (Z.of_nat k - 0)) with k by lia.
    reflexivity.
  - intros g' acc' Hrun. unfold simulate_seasonal_term. rewrite Hmul.
    rewrite (bind_ok _ _ g g dur eq_refl), Hint.
    rewrite (bind_ok _ _ g g d eq_refl), Heq.
    rewrite (bind_ok _ _ g g tt eq_refl), Hres.
    rewrite (bind_ok _ _ g g (PyInt h) eq_refl), Hfp.
    rewrite (bind_ok _ _ g g fp eq_refl).
    unfold py_float_div. rewrite Hnz.
    rewrite (bind_ok _ _ g g _ eq_refl).
    rewrite (bind_ok _ _ _ _ _ Hl1).
    rewrite (bind_ok _ _ _ _ _ Hl2).
    unfold np_zeros.
    replace (100 * d <? 0) with false by (symmetry; apply Z.ltb_ge; lia).
    rewrite small_size by assumption.
    rewrite (bind_ok _ _ _ _ _ eq_refl).
    cbn [py_range].
    rewrite (bind_ok _ _ _ _ _ eq_refl).
    replace (100 * d - 0) with (100 * d) by lia.
    rewrite (bind_ok _ _ _ _ _ Hrun).
    destruct acc' as [[a1 a2] series]. reflexivity.
Qed.

(** *** The claim on the assertion and on the result *)

(** C9 as amended. (1) The call raises [AssertionError] if and only if the
    product [periodicity * total_cycles] is a finite float that is not
    integral. (2) When the product is an integer [d >= 0], the periodicity
    is a positive number (below [2^1023]), the number of harmonics in use
    is an int [h >= 0], and the arrays are small ([h] and [100 * d] at most
    [2^20]), the call returns an array of exactly [d] entries; entry [i]
    is the sum of the harmonics as they are after [99 * d + i + 1] of the
    [100 * d] time steps, so that the first [99 * d] steps give no
    entry. *)
Theorem simulate_assertion_and_length (p c : pynum) (noise_std : float64)
    (hs : option pynum) (g : rng) :
  (snd (simulate_seasonal_term randn1 np_cos np_sin np_sum p c noise_std hs g)
     = Raise AssertionError
   <-> exists f, py_mul p c = Ok (PyFloat f) /\ is_finite f = true /\ is_integral f = false)
  /\ (forall (dur : pynum) (d h : Z),
        py_mul p c = Ok dur -> integer_value dur = Some d ->
        0 <= d -> 100 * d <= 2 ^ 20 ->
        py_positive p = true ->
        resolve_harmonics p hs = Ok (PyInt h) -> 0 <= h <= 2 ^ 20 ->
        exists (g' : rng) (wanted_series : list float64),
          simulate_seasonal_term randn1 np_cos np_sin np_sum p c noise_std hs g
          = (g', Ok wanted_series)
          /\ Z.of_nat (length wanted_series) = d
          /\ forall i : nat, Z.of_nat i < d ->
               exists (g_i : rng) (gamma_jt gamma_star_jt series : list float64),
                 simulate_steps randn1 np_cos np_sin np_sum p noise_std h d
                   (Z.to_nat (99 * d) + i + 1) g
                 = (g_i, Ok (gamma_jt, gamma_star_jt, series))
                 /\ wanted_series !! i = Some (np_sum gamma_jt)).
Proof.
  split; [apply simulate_assertion|].
  intros dur d h Hmul Hint Hd Hd' Hp Hres Hh.
  destruct (positive_periodicity p Hp) as (fp & h0 & Hfp & Hnz & _ & _).
  destruct (simulate_from_loop p c noise_std hs g dur d h fp Hmul Hint Hd Hd' Hres Hh Hfp Hnz)
    as (g0 & acc0 & Hlen0 & Hsteps & Hsim).
  pose proof two_20_1023 as H1023.
  destruct (steps_series (Z.to_nat h) (Z.to_nat (100 * d)) (div (mul two pi) fp) noise_std h
              acc0 g0 (Z.to_nat (100 * d)) eq_refl ltac:(lia) Hlen0 ltac:(lia))
    as (g' & acc' & Hrun & (_ & _ & Hlen') & Hentries).
  exists g', (py_slice_from (- d) acc'.2).
  split; [apply Hsim, Hrun|]. split.
  - apply py_slice_from_tail; [assumption|]. rewrite Hlen'. lia.
  - intros i Hi.
    destruct (Hentries (Z.to_nat (99 * d) + i)%nat ltac:(lia))
      as (gj & [[gam gams] sj] & Hrunj & Hlook).
    exists gj, gam, gams, sj. split.
    + rewrite Hsteps.
      replace (Z.to_nat (99 * d) + i + 1)%nat with (S (Z.to_nat (99 * d) + i)) by lia.
      exact Hrunj.
    + rewrite py_slice_from_burn_in; [|assumption|rewrite Hlen'; lia].
      rewrite lookup_drop. exact Hlook.
Qed.

(** *** The number of draws *)

(** X6: a successful call on small arrays advances the generator by
    exactly [2 * h * (1 + 100 * d)] draws, [h] the number of harmonics in
    use and [d] the length of the result. *)
Theorem simulate_draw_count (p c : pynum) (noise_std : float64) (hs : option pynum)
    (g : rng) (dur : pynum) (d h : Z) :
  py_mul p c = Ok dur -> integer_value dur = Some d ->
  0 <= d -> 100 * d <= 2 ^ 20 ->
  py_positive p = true ->
  resolve_harmonics p hs = Ok (PyInt h) -> 0 <= h <= 2 ^ 20 ->
  exists wanted_series : list float64,
    simulate_seasonal_term randn1 np_cos np_sin np_sum p c noise_std hs g
    = (advance randn1 (Z.to_nat (2 * h * (1 + 100 * d))) g, Ok wanted_series)
    /\ Z.of_nat (length wanted_series) = d.
Proof.
  intros Hmul Hint Hd Hd' Hp Hres Hh.
  destruct (positive_periodicity p Hp) as (fp & h0 & Hfp & Hnz & _ & _).
  exact (after_simulate p c noise_std hs g dur d h fp Hmul Hint Hd Hd' Hres Hh Hfp Hnz).
Qed.

(** *** Failures and the state of the generator *)

(** X7: a negative duration is only noticed when the padded series is
    allocated: with [h] harmonics in use, [h] at most [2^20], the call
    raises [ValueError] after the two initial vectors have been drawn. *)
Theorem negative_duration_fails_after_drawing (p c : pynum) (noise_std : float64)
    (hs : option pynum) (g : rng) (dur : pynum) (d h : Z) :
  py_mul p c = Ok dur -> integer_value dur = Some d -> d < 0 ->
  py_positive p = true ->
  resolve_harmonics p hs = Ok (PyInt h) -> 0 <= h <= 2 ^ 20 ->
  simulate_seasonal_term randn1 np_cos np_sin np_sum p c noise_std hs g
  = (advance randn1 (Z.to_nat (2 * h)) g, Raise ValueError).
Proof.
  intros Hmul Hint Hd Hp Hres Hh.
  destruct (positive_periodicity p Hp) as (fp & h0 & Hfp & Hnz & _ & _).
  apply integer_value_spec in Hint as [Hint Heq].
  unfold simulate_seasonal_term. rewrite Hmul.
  rewrite (bind_ok _ _ g g dur eq_refl), Hint.
  rewrite (bind_ok _ _ g g d eq_refl), Heq.
  rewrite (bind_ok _ _ g g tt eq_refl), Hres.
  rewrite (bind_ok _ _ g g (PyInt h) eq_refl), Hfp.
  rewrite (bind_ok _ _ g g fp eq_refl).
  unfold py_float_div. rewrite Hnz.
  rewrite (bind_ok _ _ g g _ eq_refl).
  destruct (after_randn h g Hh) as (l1 & Hl1 & _).
  rewrite (bind_ok _ _ _ _ _ Hl1).
  destruct (after_randn h (advance randn1 (Z.to_nat h) g) Hh) as (l2 & Hl2 & _).
  rewrite (bind_ok _ _ _ _ _ Hl2).
  rewrite <- advance_add.
  replace (Z.to_nat h + Z.to_nat h)%nat with (Z.to_nat (2 * h)) by lia.
  apply bind_raise. unfold np_zeros.
  replace (100 * d <? 0) with true by (symmetry; apply Z.ltb_lt; lia).
  reflexivity.
Qed.

(** X8: a count of harmonics that is a non-zero [float] is refused with
    [TypeError] and a negative one with [ValueError], in both cases before
    any number is drawn. *)
Theorem unusable_harmonics_rejected (p c : pynum) (noise_std : float64) (g : rng)
    (dur : pynum) (d : Z) (fp : float64) :
  py_mul p c = Ok dur -> integer_value dur = Some d ->
  py_float p = Ok fp -> is_zero fp = false ->
  (forall f : float64, is_zero f = false ->
     simulate_seasonal_term randn1 np_cos np_sin np_sum p c noise_std (Some (PyFloat f)) g
     = (g, Raise TypeError))
  /\ (forall z : Z, z < 0 ->
     simulate_seasonal_term randn1 np_cos np_sin np_sum p c noise_std (Some (PyInt z)) g
     = (g, Raise ValueError)).
Proof.
  intros Hmul Hint Hfp Hnz.
  apply integer_value_spec in Hint as [Hint Heq].
  split.
  - intros f Hf. unfold simulate_seasonal_term. rewrite Hmul.
    rewrite (bind_ok _ _ g g dur eq_refl), Hint.
    rewrite (bind_ok _ _ g g d eq_refl), Heq.
    rewrite (bind_ok _ _ g g tt eq_refl).
    unfold resolve_harmonics, py_truthy. rewrite Hf. simpl negb. cbv iota.
    rewrite (bind_ok _ _ g g (PyFloat f) eq_refl), Hfp.
    rewrite (bind_ok _ _ g g fp eq_refl).
    unfold py_float_div. rewrite Hnz.
    rewrite (bind_ok _ _ g g _ eq_refl).
    reflexivity.
  - intros z Hz. unfold simulate_seasonal_term. rewrite Hmul.
    rewrite (bind_ok _ _ g g dur eq_refl), Hint.
    rewrite (bind_ok _ _ g g d eq_refl), Heq.
    rewrite (bind_ok _ _ g g tt eq_refl).
    unfold resolve_harmonics, py_truthy.
    replace (z =? 0) with false by (symmetry; apply Z.eqb_neq; lia).
    simpl negb. cbv iota.
    rewrite (bind_ok _ _ g g (PyInt z) eq_refl), Hfp.
    rewrite (bind_ok _ _ g g fp eq_refl).
    unfold py_float_div. rewrite Hnz.
    rewrite (bind_ok _ _ g g _ eq_refl).
    apply bind_raise. unfold randn.
    replace (z <? 0) with true by (symmetry; apply Z.ltb_lt; lia).
    reflexivity.
Qed.

(** *** No harmonic at all *)

Lemma zero_harmonics_step (lambda_p noise_std : float64) (series : list float64)
    (t : Z) (g : rng) :
  (Z.to_nat t < length series)%nat ->
  time_step randn1 np_cos np_sin np_sum lambda_p noise_std (PyInt 0) ([], [], series) t g
  = (g, Ok ([], [], <[Z.to_nat t := np_sum []]> series)).
Proof.
  intros Ht. apply Nat.ltb_lt in Ht.
  unfold time_step, setitem. rewrite Ht. reflexivity.
Qed.

Lemma zero_harmonics_steps (lambda_p noise_std : float64) (series : list float64)
    (n : nat) (g : rng) :
  (n <= length series)%nat ->
  for_each ((fun k => 0 + Z.of_nat k) <$> seq 0 n)
    (time_step randn1 np_cos np_sin np_sum lambda_p noise_std (PyInt 0)) ([], [], series) g
  = (g, Ok ([], [], replicate n (np_sum []) ++ drop n series)).
Proof.
  induction n as [|n IH]; intros Hn.
  - simpl. rewrite drop_0. reflexivity.
  - rewrite seq_S, fmap_app, for_each_app. simpl seq. simpl fmap at 2.
    rewrite (bind_ok _ _ _ _ _ (IH ltac:(lia))).
    rewrite for_each_one.
    rewrite zero_harmonics_step
      by (rewrite length_app, length_replicate, length_drop; lia).
    replace (Z.to_nat (0 + Z.of_nat n)) with n by lia.
    do 3 f_equal.
    destruct (lookup_lt_is_Some_2 series n ltac:(lia)) as [x Hx].
    rewrite (drop_S _ _ _ Hx).
    rewrite insert_app_r_alt by (rewrite length_replicate; lia).
    rewrite length_replicate, Nat.sub_diag, replicate_S_end, <- app_assoc.
    reflexivity.
Qed.

(** X9: with no harmonic to add and a result of at most [2^20 / 100]
    entries, every entry of the result is the sum of an empty array, and
    no random number is drawn. *)
Theorem zero_harmonics_sum_nothing (p c : pynum) (noise_std : float64) (hs : option pynum)
    (g : rng) (dur : pynum) (d : Z) (fp : float64) :
  py_mul p c = Ok dur -> integer_value dur = Some d ->
  0 <= d -> 100 * d <= 2 ^ 20 ->
  resolve_harmonics p hs = Ok (PyInt 0) ->
  py_float p = Ok fp -> is_zero fp = false ->
  simulate_seasonal_term randn1 np_cos np_sin np_sum p c noise_std hs g
  = (g, Ok (replicate (Z.to_nat d) (np_sum []))).
Proof.
  intros Hmul Hint Hd Hd' Hres Hfp Hnz.
  apply integer_value_spec in Hint as [Hint Heq].
  unfold simulate_seasonal_term. rewrite Hmul.
  rewrite (bind_ok _ _ g g dur eq_refl), Hint.
  rewrite (bind_ok _ _ g g d eq_refl), Heq.
  rewrite (bind_ok _ _ g g tt eq_refl), Hres.
  rewrite (bind_ok _ _ g g (PyInt 0) eq_refl), Hfp.
  rewrite (bind_ok _ _ g g fp eq_refl).
  unfold py_float_div. rewrite Hnz.
  rewrite (bind_ok _ _ g g _ eq_refl).
  rewrite (bind_ok _ _ g g [] eq_refl).
  rewrite (bind_ok _ _ g g [] eq_refl).
  unfold np_zeros.
  replace (100 * d <? 0) with false by (symmetry; apply Z.ltb_ge; lia).
  rewrite small_size by assumption.
  rewrite (bind_ok _ _ g g _ eq_refl).
  cbn [py_range].
  rewrite (bind_ok _ _ g g _ eq_refl).
  replace (100 * d - 0) with (100 * d) by lia.
  assert (Z.to_nat (100 * d) <= length (replicate (Z.to_nat (100 * d)) zero))%nat as Hlen
    by (rewrite length_replicate; lia).
  rewrite (bind_ok _ _ _ _ _ (zero_harmonics_steps _ _ _ _ g Hlen)).
  unfold ret. do 2 f_equal.
  rewrite drop_ge by (rewrite length_replicate; lia).
  rewrite app_nil_r.
  rewrite py_slice_from_burn_in; [|assumption|rewrite length_replicate; lia].
  rewrite drop_replicate. f_equal. lia.
Qed.

(** *** Indexing stays in range *)

Lemma ends_ret {A : Type} (a : A) (g : rng) (P : A -> Prop) (E : exn -> Prop) :
  P a -> ends_in (ret a) g P E.
Proof. exact id. Qed.

Lemma ends_raise {A : Type} (e : exn) (g : rng) (P : A -> Prop) (E : exn -> Prop) :
  E e -> ends_in (raise e) g P E.
Proof. exact id. Qed.

Lemma ends_lift {A : Type} (r : result A) (g : rng) (E : exn -> Prop) :
  (forall e, r = Raise e -> E e) -> ends_in (lift r) g (fun a => r = Ok a) E.
Proof. intros H. unfold ends_in, lift. simpl. destruct r; [reflexivity | apply H; reflexivity]. Qed.

Lemma ends_bind {A B : Type} (m : M rng A) (f : A -> M rng B) (g : rng)
    (P : A -> Prop) (Q : B -> Prop) (E : exn -> Prop) :
  ends_in m g P E -> (forall a g', P a -> ends_in (f a) g' Q E) ->
  ends_in (bind m f) g Q E.
Proof.
  unfold ends_in, bind. intros Hm Hf.
  destruct (m g) as [g' [a|e]]; simpl in *; [apply Hf, Hm | exact Hm].
Qed.

Lemma ends_after {A : Type} (k : nat) (m : M rng A) (g : rng) (P : A -> Prop)
    (E : exn -> Prop) :
  returns_after randn1 k m g P -> ends_in m g P E.
Proof. intros (a & Hm & Ha). unfold ends_in. rewrite Hm. exact Ha. Qed.

Lemma ends_for_each {A B : Type} (I : B -> Prop) (F : A -> Prop) (E : exn -> Prop)
    (l : list A) (body : B -> A -> M rng B) (acc : B) (g : rng) :
  Forall F l -> I acc ->
  (forall b a g', F a -> I b -> ends_in (body b a) g' I E) ->
  ends_in (for_each l body acc) g I E.
Proof.
  intros Hl Hacc Hbody. revert acc g Hacc.
  induction Hl as [|x l Hx _ IH]; intros acc g Hacc; simpl for_each.
  - apply ends_ret, Hacc.
  - apply (ends_bind _ _ _ I); [apply Hbody; assumption|].
    intros b g' Hb. apply IH, Hb.
Qed.

Lemma py_float_no_index (x : pynum) (e : exn) : py_float x = Raise e -> e <> IndexError.
Proof. destruct x as [z|f]; simpl; [destruct (is_finite _)|]; intros [= <-]; discriminate. Qed.

Lemma py_mul_no_index (x y : pynum) (e : exn) : py_mul x y = Raise e -> e <> IndexError.
Proof.
  destruct x as [a|fa], y as [b|fb]; simpl; try discriminate.
  - destruct (is_finite _); simpl; intros [= <-]; discriminate.
  - destruct (is_finite _); simpl; intros [= <-]; discriminate.
Qed.

Lemma py_int_no_index (x : pynum) (e : exn) : py_int x = Raise e -> e <> IndexError.
Proof. destruct x as [z|[s|s| |s m e']]; simpl; intros [= <-]; discriminate. Qed.

Lemma resolve_harmonics_no_index (p : pynum) (hs : option pynum) (e : exn) :
  resolve_harmonics p hs = Raise e -> e <> IndexError.
Proof.
  assert (rbind (py_truediv_2 p)
            (fun half => rbind (py_int (PyFloat (floor half))) (fun n => Ok (PyInt n)))
          = Raise e -> e <> IndexError) as H.
  { destruct p as [z|f]; simpl.
    - destruct (is_finite _); simpl; [|intros [= <-]; discriminate].
      destruct (floor _) as [s|s| |s m e']; simpl; intros [= <-]; discriminate.
    - destruct (floor _) as [s|s| |s m e']; simpl; intros [= <-]; discriminate. }
  unfold resolve_harmonics. destruct hs as [h|]; [|exact H].
  destruct (py_truthy h); [discriminate | exact H].
Qed.

Lemma py_float_div_no_index (a b : float64) (e : exn) :
  py_float_div a b = Raise e -> e <> IndexError.
Proof. unfold py_float_div. destruct (is_zero b); intros [= <-]; discriminate. Qed.

Lemma ends_randn (n : pynum) (g : rng) :
  ends_in (randn randn1 n) g
    (fun l => exists z, n = PyInt z /\ 0 <= z /\ length l = Z.to_nat z)
    (fun e => e <> IndexError).
Proof.
  destruct n as [z|f]; simpl; [|apply ends_raise; discriminate].
  destruct (z <? 0) eqn:Hz; [apply ends_raise; discriminate|].
  destruct (_ <=? z); [apply ends_raise; discriminate|].
  apply Z.ltb_ge in Hz.
  apply (ends_after (Z.to_nat z)).
  apply (after_mono _ _ _ _ _ _ (after_draws randn1 _ g)).
  intros l Hl. exists z. repeat split; assumption.
Qed.

Lemma ends_harmonic_step (L : nat) (lambda_p noise_std : float64)
    (gamma_jt gamma_star_jt : list float64) (acc : list float64 * list float64)
    (j : Z) (g : rng) :
  length gamma_jt = L -> length gamma_star_jt = L ->
  length acc.1 = L /\ length acc.2 = L ->
  1 <= j <= Z.of_nat L ->
  ends_in
    (harmonic_step randn1 np_cos np_sin lambda_p noise_std gamma_jt gamma_star_jt acc j) g
    (fun acc' => length acc'.1 = L /\ length acc'.2 = L)
    (fun e => e <> IndexError).
Proof.
  intros H1 H2 H3 Hj.
  destruct (py_float (PyInt j)) as [fj|e] eqn:Hf.
  - apply (ends_after 2), (after_harmonic_step randn1 np_cos np_sin L); try assumption. exists fj. exact Hf.
  - destruct acc as [a1 a2]. unfold harmonic_step, ends_in, bind, lift. rewrite Hf. simpl.
    apply (py_float_no_index _ _ Hf).
Qed.

Lemma ends_time_step (L T : nat) (lambda_p noise_std : float64) (h : Z)
    (acc : list float64 * list float64 * list float64) (t : Z) (g : rng) :
  Z.to_nat h = L -> 0 <= h ->
  (length acc.1.1 = L /\ length acc.1.2 = L /\ length acc.2 = T) ->
  0 <= t < Z.of_nat T ->
  ends_in (time_step randn1 np_cos np_sin np_sum lambda_p noise_std (PyInt h) acc t) g
    (fun acc' => length acc'.1.1 = L /\ length acc'.1.2 = L /\ length acc'.2 = T)
    (fun e => e <> IndexError).
Proof.
  intros HL Hh (H1 & H2 & H3) Ht. destruct acc as [[gj gsj] series]. simpl in H1, H2, H3.
  unfold time_step. cbn [py_succ py_range].
  apply (ends_bind _ _ _ (fun js => Forall (fun k => 1 <= k < 1 + Z.of_nat L) js)).
  { apply ends_ret. replace (Z.to_nat (h + 1 - 1)) with L by lia. apply py_range_elements. }
  intros js g1 Hjs.
  apply (ends_bind _ _ _ (fun acc' => length acc'.1 = L /\ length acc'.2 = L)).
  { apply (ends_for_each _ (fun k => 1 <= k < 1 + Z.of_nat L)); [assumption| |].
    - simpl. rewrite !length_replicate. split; assumption.
    - intros b j g' Hj Hb. apply (ends_harmonic_step L); try assumption. lia. }
  intros [a1 a2] g2 [Ha1 Ha2]. simpl in Ha1, Ha2.
  apply (ends_bind _ _ _ (fun l => length l = T)).
  { apply (ends_after 0).
    apply (after_mono _ _ _ _ _ _ (after_setitem randn1 series (Z.to_nat t) _ _ ltac:(lia))).
    intros ? ->. rewrite length_insert. assumption. }
  intros series' g3 Hs. apply ends_ret. simpl. repeat split; assumption.
Qed.

(** X10: whatever the arguments, the call never raises [IndexError]: every
    subscript in the two nested loops is in range. *)
Theorem simulate_subscripts_in_range (p c : pynum) (noise_std : float64)
    (hs : option pynum) :
  never_raises IndexError
    (simulate_seasonal_term randn1 np_cos np_sin np_sum p c noise_std hs).
Proof.
  intros g.
  assert (ends_in (simulate_seasonal_term randn1 np_cos np_sin np_sum p c noise_std hs) g
            (fun _ => True) (fun e => e <> IndexError)) as H.
  { unfold simulate_seasonal_term.
    eapply ends_bind; [apply ends_lift, py_mul_no_index|]. intros dur g1 _.
    eapply ends_bind; [apply ends_lift, py_int_no_index|]. intros d g2 _.
    apply (ends_bind _ _ _ (fun _ => True)).
    { destruct (py_eq_int dur d); [apply ends_ret; exact I | apply ends_raise; discriminate]. }
    intros _ g3 _.
    eapply ends_bind; [apply ends_lift, resolve_harmonics_no_index|]. intros h g4 _.
    eapply ends_bind; [apply ends_lift, py_float_no_index|]. intros fp g5 _.
    eapply ends_bind; [apply ends_lift, py_float_div_no_index|]. intros lambda_p g6 _.
    eapply ends_bind; [apply ends_randn|]. intros gamma_jt g7 (z & -> & Hz & Hgj).
    eapply ends_bind; [apply ends_randn|]. intros gamma_star_jt g8 (z' & [= <-] & _ & Hgsj).
    unfold np_zeros.
    destruct (100 * d <? 0) eqn:Hd; [apply ends_raise; discriminate|].
    destruct (_ <=? 100 * d); [apply ends_raise; discriminate|].
    apply Z.ltb_ge in Hd.
    apply (ends_bind _ _ _ (fun l => length l = Z.to_nat (100 * d))).
    { apply ends_ret, length_replicate. }
    intros series g9 Hs.
    cbn [py_range].
    apply (ends_bind _ _ _
             (fun ts => Forall (fun k => 0 <= k < 0 + Z.of_nat (Z.to_nat (100 * d))) ts)).
    { apply ends_ret. replace (100 * d - 0) with (100 * d) by lia. apply py_range_elements. }
    intros ts g10 Hts.
    apply (ends_bind _ _ _
             (fun acc => length acc.1.1 = Z.to_nat z /\ length acc.1.2 = Z.to_nat z
                         /\ length acc.2 = Z.to_nat (100 * d))).
    { apply (ends_for_each _ (fun k => 0 <= k < 0 + Z.of_nat (Z.to_nat (100 * d))));
        [assumption| |].
      - simpl. rewrite !length_fmap. repeat split; assumption.
      - intros b t g' Ht Hb. apply ends_time_step; try assumption; reflexivity. }
    intros [[a1 a2] series'] g11 _. apply ends_ret. exact I. }
  unfold ends_in in H. intros Heq. rewrite Heq in H. apply H. reflexivity.
Qed.


(** *** The synthetic data of the script *)

Lemma after_append_term (ix : nat) (p h sd : Z) (c : float64)
    (terms : list (list float64)) (g : rng) :
  periodicities !! ix = Some p -> num_harmonics !! ix = Some h -> std !! ix = Some sd ->
  py_truediv_int duration p = Ok c ->
  py_mul (PyInt p) (PyFloat c) = Ok (PyFloat (of_Z 300)) ->
  0 < p < 2 ^ 1023 -> 0 < h <= 2 ^ 20 ->
  returns_after randn1 (Z.to_nat (2 * h * 30001))
    (append_term randn1 np_cos np_sin np_sum terms ix) g
    (fun terms' => exists s, terms' = terms ++ [s] /\ length s = 300%nat).
Proof.
  intros Hp Hh Hsd Hc Hmul Hp' Hh'.
  unfold append_term, getitem. rewrite Hp.
  apply (after_weaken randn1 (0 + (0 + (0 + (0 + (Z.to_nat (2 * h * (1 + 100 * 300)) + 0))))));
    [lia|].
  apply (after_bind _ _ _ _ _ _ (fun x => x = p)); [apply after_ret; reflexivity|].
  intros ? ->. rewrite Hc.
  apply (after_bind _ _ _ _ _ _ (fun x => x = c)); [apply after_lift; reflexivity|].
  intros ? ->. rewrite Hh.
  apply (after_bind _ _ _ _ _ _ (fun x => x = h)); [apply after_ret; reflexivity|].
  intros ? ->. rewrite Hsd.
  apply (after_bind _ _ _ _ _ _ (fun x => x = sd)); [apply after_ret; reflexivity|].
  intros ? ->.
  apply (after_bind _ _ _ _ _ _ (fun s => Z.of_nat (length s) = 300)).
  { apply (after_simulate _ _ _ _ _ (PyFloat (of_Z 300)) 300 h (of_Z p)).
    - exact Hmul.
    - vm_compute. reflexivity.
    - lia.
    - rewrite two_20. lia.
    - unfold resolve_harmonics, py_truthy.
      replace (h =? 0) with false by (symmetry; apply Z.eqb_neq; lia). reflexivity.
    - lia.
    - apply py_float_small. lia.
    - apply of_Z_nonzero. lia. }
  intros s Hs. apply after_ret. exists s. split; [reflexivity | lia].
Qed.

Lemma after_synthetic_series (g : rng) :
  returns_after randn1 (Z.to_nat 300010) (synthetic_series randn1 np_cos np_sin np_sum) g
    (fun r => exists t0 t1 : list float64,
       length t0 = 300%nat /\ length t1 = 300%nat
       /\ r = ([t0; t1; replicate 300 (of_Z 10)],
               zip_with add (zip_with add t0 t1) (replicate 300 (of_Z 10)))).
Proof.
  unfold synthetic_series, synthetic_terms.
  change (seq 0 (length periodicities)) with [0; 1]%nat.
  cbn [for_each].
  apply (after_weaken randn1
           (((Z.to_nat (2 * 3 * 30001) + (Z.to_nat (2 * 2 * 30001) + 0)) + (0 + 0)) + (0 + 0)));
    [lia|].
  apply (after_bind _ _ _ _ _ _
           (fun terms => exists t0 t1 : list float64,
              length t0 = 300%nat /\ length t1 = 300%nat
              /\ terms = [t0; t1; replicate 300 (of_Z 10)])).
  { apply (after_bind _ _ _ _ _ _
             (fun terms => exists t0 t1 : list float64,
                length t0 = 300%nat /\ length t1 = 300%nat /\ terms = [t0; t1])).
    { apply (after_bind _ _ _ _ _ _
               (fun terms => exists t0 : list float64, length t0 = 300%nat /\ terms = [t0])).
      { apply (after_mono _ _ _ _ _ _
                 (after_append_term 0 10 3 2 (of_Z 30) [] g eq_refl eq_refl eq_refl
                    ltac:(vm_compute; reflexivity) ltac:(vm_compute; reflexivity)
                    ltac:(split; reflexivity) ltac:(rewrite two_20; lia))).
        intros ? (s & -> & Hs). exists s. split; [assumption | reflexivity]. }
      intros ? (t0 & Ht0 & ->).
      apply (after_bind _ _ _ _ _ _
               (fun terms => exists t1 : list float64, length t1 = 300%nat /\ terms = [t0; t1])).
      { apply (after_mono _ _ _ _ _ _
                 (after_append_term 1 100 2 3 (of_Z 3) [t0] _ eq_refl eq_refl eq_refl
                    ltac:(vm_compute; reflexivity) ltac:(vm_compute; reflexivity)
                    ltac:(split; reflexivity) ltac:(rewrite two_20; lia))).
        intros ? (s & -> & Hs). exists s. split; [assumption | reflexivity]. }
      intros ? (t1 & Ht1 & ->). apply after_ret. exists t0, t1. repeat split; assumption. }
    intros ? (t0 & t1 & Ht0 & Ht1 & ->).
    apply (after_bind _ _ _ _ _ _ (fun x => x = t0)); [apply after_ret; reflexivity|].
    intros ? ->. apply after_ret. exists t0, t1.
    repeat split; try assumption.
    rewrite Ht0, fmap_replicate. reflexivity. }
  intros ? (t0 & t1 & Ht0 & Ht1 & ->).
  assert (sum_axis0 [t0; t1; replicate 300 (of_Z 10)]
          = Ok (zip_with add (zip_with add t0 t1) (replicate 300 (of_Z 10)))) as Hsum.
  { unfold sum_axis0. cbn [forallb]. rewrite Ht1, length_replicate, Ht0. reflexivity. }
  rewrite Hsum.
  apply (after_bind _ _ _ _ _ _ (fun x => x = zip_with add (zip_with add t0 t1) (replicate 300 (of_Z 10))));
    [apply after_lift; reflexivity|].
  intros ? ->. apply after_ret. exists t0, t1. repeat split; assumption.
Qed.

(** X11: the cell that builds the synthetic data returns the two seasonal
    terms and the level 10, each of 300 entries, and their entry-wise sum;
    it draws 300010 random numbers. *)
Theorem synthetic_series_shape (g : rng) :
  exists t0 t1 : list float64,
    length t0 = 300%nat /\ length t1 = 300%nat
    /\ synthetic_series randn1 np_cos np_sin np_sum g
       = (advance randn1 (Z.to_nat 300010) g,
          Ok ([t0; t1; replicate 300 (of_Z 10)],
              zip_with add (zip_with add t0 t1) (replicate 300 (of_Z 10)))).
Proof.
  destruct (after_synthetic_series g) as (r & Hr & t0 & t1 & Ht0 & Ht1 & ->).
  exists t0, t1. repeat split; assumption.
Qed.


End Runs.

Lemma simulate_assertion_and_length_witness :
  py_mul (PyInt 10) (PyFloat (of_Z 3)) = Ok (PyFloat (of_Z 30))
  /\ integer_value (PyFloat (of_Z 30)) = Some 30
  /\ py_positive (PyInt 10) = true
  /\ resolve_harmonics (PyInt 10) (Some (PyInt 3)) = Ok (PyInt 3)
  /\ exists (g' : nat) (wanted_series : list float64),
       simulate_seasonal_term sample_randn1 sample_cos sample_sin Numpy.sum
         (PyInt 10) (PyFloat (of_Z 3)) one (Some (PyInt 3)) 0%nat
       = (g', Ok wanted_series)
       /\ Z.of_nat (length wanted_series) = 30
       /\ forall i : nat, Z.of_nat i < 30 ->
            exists (g_i : nat) (gamma_jt gamma_star_jt series : list float64),
              simulate_steps sample_randn1 sample_cos sample_sin Numpy.sum
                (PyInt 10) one 3 30 (Z.to_nat (99 * 30) + i + 1) 0%nat
              = (g_i, Ok (gamma_jt, gamma_star_jt, series))
              /\ wanted_series !! i = Some (Numpy.sum gamma_jt).
Proof.
  split; [reflexivity|]. split; [reflexivity|]. split; [reflexivity|]. split; [reflexivity|].
  apply (proj2 (simulate_assertion_and_length sample_randn1 sample_cos sample_sin
                  Numpy.sum (PyInt 10) (PyFloat (of_Z 3)) one (Some (PyInt 3)) 0%nat)
           (PyFloat (of_Z 30)) 30 3);
    [reflexivity | reflexivity | lia | rewrite two_20; lia | reflexivity | reflexivity
    | rewrite two_20; lia].
Defined.

(** C9 as stated fails. With periodicity 2 and -1 cycles the product -2 is
    an integer, and the call raises [ValueError] (no array has -2 entries);
    with periodicity 0 the product 0 is an integer and the call raises
    [ZeroDivisionError]; with the periodicity [2^1000] and 0 cycles the
    product 0.0 is an integer and the call raises [ValueError] (no array
    has [2^999] entries); and with an infinite periodicity the product is
    not an integer, yet the exception is [OverflowError], not
    [AssertionError] (and [ValueError] for a NaN). *)
Lemma simulate_claim_fails :
  (py_mul (PyInt 2) (PyInt (-1)) = Ok (PyInt (-2))
   /\ integer_value (PyInt (-2)) = Some (-2)
   /\ snd (sample_run (PyInt 2) (PyInt (-1)) None) = Raise ValueError)
  /\ (py_mul (PyInt 0) (PyInt 5) = Ok (PyInt 0)
      /\ integer_value (PyInt 0) = Some 0
      /\ snd (sample_run (PyInt 0) (PyInt 5) None) = Raise ZeroDivisionError)
  /\ (py_mul (PyFloat (of_scaled 1 1000)) (PyInt 0) = Ok (PyFloat zero)
      /\ integer_value (PyFloat zero) = Some 0
      /\ sample_run (PyFloat (of_scaled 1 1000)) (PyInt 0) None = (0%nat, Raise ValueError))
  /\ (py_mul (PyFloat inf) (PyInt 1) = Ok (PyFloat inf)
      /\ integer_value (PyFloat inf) = None
      /\ snd (sample_run (PyFloat inf) (PyInt 1) None) = Raise OverflowError)
  /\ (py_mul (PyFloat nan) (PyInt 1) = Ok (PyFloat nan)
      /\ integer_value (PyFloat nan) = None
      /\ snd (sample_run (PyFloat nan) (PyInt 1) None) = Raise ValueError).
Proof. repeat split; vm_compute; reflexivity. Qed.

Lemma simulate_draw_count_witness :
  py_mul (PyInt 10) (PyFloat (of_Z 3)) = Ok (PyFloat (of_Z 30))
  /\ integer_value (PyFloat (of_Z 30)) = Some 30
  /\ py_positive (PyInt 10) = true
  /\ resolve_harmonics (PyInt 10) (Some (PyInt 3)) = Ok (PyInt 3)
  /\ exists wanted_series : list float64,
       simulate_seasonal_term sample_randn1 sample_cos sample_sin Numpy.sum
         (PyInt 10) (PyFloat (of_Z 3)) one (Some (PyInt 3)) 0%nat
       = (advance sample_randn1 (Z.to_nat (2 * 3 * (1 + 100 * 30))) 0%nat, Ok wanted_series)
       /\ Z.of_nat (length wanted_series) = 30.
Proof.
  split; [reflexivity|]. split; [reflexivity|]. split; [reflexivity|]. split; [reflexivity|].
  apply (simulate_draw_count sample_randn1 sample_cos sample_sin Numpy.sum
           (PyInt 10) (PyFloat (of_Z 3)) one (Some (PyInt 3)) 0%nat (PyFloat (of_Z 30)) 30 3);
    [reflexivity | reflexivity | lia | rewrite two_20; lia | reflexivity | reflexivity
    | rewrite two_20; lia].
Defined.

Lemma negative_duration_fails_after_drawing_witness :
  py_mul (PyInt 2) (PyInt (-1)) = Ok (PyInt (-2))
  /\ integer_value (PyInt (-2)) = Some (-2)
  /\ py_positive (PyInt 2) = true
  /\ resolve_harmonics (PyInt 2) None = Ok (PyInt 1)
  /\ simulate_seasonal_term sample_randn1 sample_cos sample_sin Numpy.sum
       (PyInt 2) (PyInt (-1)) one None 0%nat
     = (advance sample_randn1 (Z.to_nat (2 * 1)) 0%nat, Raise ValueError).
Proof.
  split; [reflexivity|]. split; [reflexivity|]. split; [reflexivity|]. split; [reflexivity|].
  apply (negative_duration_fails_after_drawing sample_randn1 sample_cos sample_sin Numpy.sum
           (PyInt 2) (PyInt (-1)) one None 0%nat (PyInt (-2)) (-2) 1);
    [reflexivity | reflexivity | lia | reflexivity | reflexivity | rewrite two_20; lia].
Defined.

Lemma unusable_harmonics_rejected_witness :
  py_mul (PyInt 10) (PyInt 3) = Ok (PyInt 30)
  /\ integer_value (PyInt 30) = Some 30
  /\ py_float (PyInt 10) = Ok (of_Z 10)
  /\ is_zero (of_Z 10) = false
  /\ (forall f : float64, is_zero f = false ->
        simulate_seasonal_term sample_randn1 sample_cos sample_sin Numpy.sum
          (PyInt 10) (PyInt 3) one (Some (PyFloat f)) 0%nat
        = (0%nat, Raise TypeError))
  /\ (forall z : Z, z < 0 ->
        simulate_seasonal_term sample_randn1 sample_cos sample_sin Numpy.sum
          (PyInt 10) (PyInt 3) one (Some (PyInt z)) 0%nat
        = (0%nat, Raise ValueError)).
Proof.
  split; [reflexivity|]. split; [reflexivity|]. split; [reflexivity|]. split; [reflexivity|].
  apply (unusable_harmonics_rejected sample_randn1 sample_cos sample_sin Numpy.sum
           (PyInt 10) (PyInt 3) one 0%nat (PyInt 30) 30 (of_Z 10));
    reflexivity.
Defined.

Lemma zero_harmonics_sum_nothing_witness :
  py_mul (PyInt 1) (PyInt 3) = Ok (PyInt 3)
  /\ integer_value (PyInt 3) = Some 3
  /\ resolve_harmonics (PyInt 1) None = Ok (PyInt 0)
  /\ py_float (PyInt 1) = Ok (of_Z 1)
  /\ is_zero (of_Z 1) = false
  /\ simulate_seasonal_term sample_randn1 sample_cos sample_sin Numpy.sum
       (PyInt 1) (PyInt 3) one None 0%nat
     = (0%nat, Ok (replicate (Z.to_nat 3) (Numpy.sum []))).
Proof.
  split; [reflexivity|]. split; [reflexivity|]. split; [reflexivity|]. split; [reflexivity|].
  split; [reflexivity|].
  apply (zero_harmonics_sum_nothing sample_randn1 sample_cos sample_sin Numpy.sum
           (PyInt 1) (PyInt 3) one None 0%nat (PyInt 3) 3 (of_Z 1));
    [reflexivity | reflexivity | lia | rewrite two_20; lia | reflexivity | reflexivity
    | reflexivity].
Defined.

End SeasonalMore.

(* ===================================================================== *)
(** * The double-sided moving average of [recursive_ls.py] *)
(* ===================================================================== *)

Module RecursiveLSFacts.

Import NumpyFacts RecursiveLS.

Lemma for_each_appends {A : Type} (f : A -> float64) (l : list A)
    (body : list float64 -> A -> result (list float64)) (acc : list float64) :
  Forall (fun x => forall ma, body ma x = Ok (ma ++ [f x])) l ->
  for_each l body acc = Ok (acc ++ (f <$> l)).
Proof.
  intros H. revert acc. induction H as [|x l Hx _ IH]; intros acc; simpl.
  - rewrite app_nil_r. reflexivity.
  - rewrite Hx. simpl. rewrite IH, <- app_assoc. reflexivity.
Qed.



Lemma fmap_seq_ext {B : Type} (f g : nat -> B) (a n : nat) :
  (forall i, (a <= i < a + n)%nat -> f i = g i) -> f <$> seq a n = g <$> seq a n.
Proof.
  revert a. induction n as [|n IH]; intros a H; [reflexivity|].
  simpl. rewrite (H a) by lia. f_equal. apply IH. intros i Hi. apply H. lia.
Qed.

Lemma length_np_arange_down (start stop : Z) :
  length (np_arange_down start stop) = Z.to_nat (start - stop).
Proof. unfold np_arange_down. rewrite length_fmap, length_seq. reflexivity. Qed.

Lemma lookup_np_arange_down (w i : nat) :
  (i < w)%nat -> np_arange_down (Z.of_nat w) 0 !! i = Some (Z.of_nat (w - i)).
Proof.
  intros Hi. unfold np_arange_down.
  rewrite list_lookup_fmap, lookup_seq_lt by lia. simpl. f_equal. lia.
Qed.

Lemma np_multiply_same_length (a b : list float64) :
  length a = length b -> np_multiply a b = Ok (zip_with mul a b).
Proof. intros H. unfold np_multiply. rewrite H, Nat.eqb_refl. reflexivity. Qed.



Lemma py_slice_inside {A : Type} (a b : Z) (l : list A) :
  0 <= a <= b -> b <= Z.of_nat (length l) ->
  py_slice a b l = take (Z.to_nat (b - a)) (drop (Z.to_nat a) l).
Proof.
  intros Ha Hb. unfold py_slice, slice_bound.
  replace (a <? 0) with false by (symmetry; apply Z.ltb_ge; lia).
  replace (b <? 0) with false by (symmetry; apply Z.ltb_ge; lia).
  rewrite !Z.min_l by lia. reflexivity.
Qed.

Lemma py_slice_trim {A : Type} (w : nat) (l : list A) :
  (1 <= w)%nat ->
  py_slice (Z.of_nat w) (- Z.of_nat w) l = take (length l - 2 * w) (drop w l).
Proof.
  intros Hw. unfold py_slice, slice_bound.
  replace (Z.of_nat w <? 0) with false by (symmetry; apply Z.ltb_ge; lia).
  replace (- Z.of_nat w <? 0) with true by (symmetry; apply Z.ltb_lt; lia).
  destruct (Nat.le_gt_cases (2 * w) (length l)) as [H|H].
  - rewrite Z.min_l, Z.max_l by lia. f_equal; [lia | f_equal; lia].
  - replace (length l - 2 * w)%nat with 0%nat by lia.
    replace (Z.to_nat _) with 0%nat by lia. reflexivity.
Qed.

Section Ewma.

Context {label : Type}.
Variable np_power : float64 -> Z -> float64.
Variable np_sum : list float64 -> float64.

Lemma length_weights (beta : float64) (n_window : Z) :
  length (weights np_power beta n_window) = (2 * Z.to_nat n_window + 1)%nat.
Proof.
  unfold weights. rewrite !length_app, !length_fmap, length_reverse, length_np_arange_down.
  simpl. lia.
Qed.


(** X12: the weights are one more than twice the window in number; the
    centre weight is 1 and the weight at distance [j] from the centre, on
    either side, is [beta ** j]. *)
Theorem weights_by_distance (beta : float64) (w : nat) :
  length (weights np_power beta (Z.of_nat w)) = (2 * w + 1)%nat
  /\ weights np_power beta (Z.of_nat w) !! w = Some one
  /\ forall j : nat, (1 <= j <= w)%nat ->
       weights np_power beta (Z.of_nat w) !! (w - j)%nat = Some (np_power beta (Z.of_nat j))
       /\ weights np_power beta (Z.of_nat w) !! (w + j)%nat = Some (np_power beta (Z.of_nat j)).
Proof.
  split; [rewrite length_weights; lia|].
  assert (length (np_power beta <$> np_arange_down (Z.of_nat w) 0) = w) as Hlen.
  { rewrite length_fmap, length_np_arange_down. lia. }
  unfold weights. split.
  - rewrite lookup_app_r by lia. rewrite Hlen, Nat.sub_diag. reflexivity.
  - intros j Hj. split.
    + rewrite lookup_app_l by lia.
      rewrite list_lookup_fmap, lookup_np_arange_down by lia.
      simpl. do 2 f_equal. lia.
    + rewrite lookup_app_r by lia. rewrite Hlen.
      replace (w + j - w)%nat with (S (j - 1)) by lia. simpl.
      rewrite list_lookup_fmap, reverse_lookup by (rewrite length_np_arange_down; lia).
      rewrite length_np_arange_down, lookup_np_arange_down by lia.
      simpl. do 2 f_equal. lia.
Qed.

Lemma ewma_closed_form (series : list (label * float64)) (beta : float64) (w : nat) :
  (1 <= w)%nat -> Z.of_nat w <= 2 ^ 20 -> is_zero (add one beta) = false ->
  ewma np_power np_sum series beta (Z.of_nat w)
  = Ok (zip (fst <$> take (length series - 2 * w) (drop w series))
          (window_average np_power np_sum series beta w <$> seq 0 (length series - 2 * w))).
Proof.
  intros Hw Hw' Hnz. unfold ewma, py_float_div. rewrite Hnz. cbn [rbind].
  unfold np_allocate.
  rewrite !allowed_size by (rewrite two_60; rewrite two_20 in Hw'; lia).
  cbn [rbind].
  set (scalar := div (sub one beta) (add one beta)).
  set (f := fun t : Z =>
              mul scalar
                (np_sum (zip_with mul (weights np_power beta (Z.of_nat w))
                           (snd <$> py_slice (t - Z.of_nat w) (t + Z.of_nat w + 1) series)))).
  rewrite (for_each_appends f).
  - cbn [rbind app]. rewrite py_slice_trim by assumption.
    unfold pd_Series.
    assert (length (f <$> range (Z.of_nat w) (Z.of_nat (length series) - Z.of_nat w))
            = length (fst <$> take (length series - 2 * w) (drop w series))) as Hlen.
    { unfold range. rewrite !length_fmap, length_seq, length_take, length_drop. lia. }
    rewrite Hlen, Nat.eqb_refl. do 2 f_equal.
    unfold range. rewrite <- list_fmap_compose.
    replace (Z.to_nat (Z.of_nat (length series) - Z.of_nat w - Z.of_nat w))
      with (length series - 2 * w)%nat by lia.
    apply fmap_seq_ext. intros i Hi. unfold f, window_average, compose, scalar. cbv beta.
    rewrite py_slice_inside by lia.
    replace (Z.to_nat (Z.of_nat w + Z.of_nat i + Z.of_nat w + 1
                       - (Z.of_nat w + Z.of_nat i - Z.of_nat w)))
      with (2 * w + 1)%nat by lia.
    replace (Z.to_nat (Z.of_nat w + Z.of_nat i - Z.of_nat w)) with i by lia.
    reflexivity.
  - unfold range. apply Forall_fmap, Forall_forall. intros i Hi ma.
    apply elem_of_seq in Hi. cbv beta.
    rewrite np_multiply_same_length; [reflexivity|].
    rewrite length_weights, length_fmap, py_slice_inside by lia.
    rewrite length_take, length_drop. lia.
Qed.

(** X13: with a window of [w >= 1], [w] at most [2^20], the result has an
    entry for each position that has [w] neighbours on both sides, under
    the label of that position, and the entry is the weighted sum over the
    [2 * w + 1] values centred there. *)
Theorem ewma_centred (series : list (label * float64)) (beta : float64) (w : nat) :
  (1 <= w)%nat -> Z.of_nat w <= 2 ^ 20 -> is_zero (add one beta) = false ->
  exists out,
    ewma np_power np_sum series beta (Z.of_nat w) = Ok out
    /\ length out = (length series - 2 * w)%nat
    /\ forall (i : nat) (l : label) (x : float64),
         (i < length series - 2 * w)%nat -> series !! (w + i)%nat = Some (l, x) ->
         out !! i = Some (l, window_average np_power np_sum series beta w i).
Proof.
  intros Hw Hw' Hnz. eexists. split; [apply ewma_closed_form; assumption|].
  split.
  - rewrite length_zip_with, !length_fmap, length_seq, length_take, length_drop. lia.
  - intros i l x Hi Hl.
    apply lookup_zip_with_Some. exists l, (window_average np_power np_sum series beta w i).
    split; [reflexivity|]. split.
    + rewrite list_lookup_fmap, lookup_take_lt, lookup_drop, Hl by lia. reflexivity.
    + rewrite list_lookup_fmap, lookup_seq_lt by lia. reflexivity.
Qed.

(** X14: the average slides with the series: for a window of [w >= 1], [w]
    at most [2^20], dropping the first observation drops the first entry
    of the result and changes no other. *)
Theorem ewma_slides (o : label * float64) (series : list (label * float64))
    (beta : float64) (w : nat) :
  (1 <= w)%nat -> Z.of_nat w <= 2 ^ 20 -> is_zero (add one beta) = false ->
  exists out,
    ewma np_power np_sum (o :: series) beta (Z.of_nat w) = Ok out
    /\ ewma np_power np_sum series beta (Z.of_nat w) = Ok (drop 1 out).
Proof.
  intros Hw Hw' Hnz. eexists. split; [apply ewma_closed_form; assumption|].
  rewrite ewma_closed_form by assumption. f_equal.
  destruct w as [|w]; [lia|]. cbn [length drop].
  destruct (S (length series) - 2 * S w)%nat as [|m] eqn:Hm.
  - replace (length series - 2 * S w)%nat with 0%nat by lia. reflexivity.
  - replace (length series - 2 * S w)%nat with m by lia.
    destruct (lookup_lt_is_Some_2 series w ltac:(lia)) as [y Hy].
    rewrite (drop_S _ _ _ Hy). cbn [take fmap list_fmap seq zip zip_with drop].
    rewrite <- fmap_S_seq, <- list_fmap_compose, drop_0. reflexivity.
Qed.



End Ewma.

Lemma ewma_centred_witness :
  (1 <= 1)%nat /\ Z.of_nat 1 <= 2 ^ 20 /\ is_zero (add one one) = false
  /\ exists out,
       ewma sample_power Numpy.sum [(0%nat, one); (1%nat, two); (2%nat, one)] one (Z.of_nat 1)
       = Ok out
       /\ length out = (length [(0%nat, one); (1%nat, two); (2%nat, one)] - 2 * 1)%nat
       /\ forall (i : nat) (l : nat) (x : float64),
            (i < length [(0%nat, one); (1%nat, two); (2%nat, one)] - 2 * 1)%nat ->
            [(0%nat, one); (1%nat, two); (2%nat, one)] !! (1 + i)%nat = Some (l, x) ->
            out !! i
            = Some (l, window_average sample_power Numpy.sum
                         [(0%nat, one); (1%nat, two); (2%nat, one)] one 1 i).
Proof.
  split; [lia|]. split; [rewrite two_20; lia|]. split; [reflexivity|].
  apply (ewma_centred sample_power Numpy.sum [(0%nat, one); (1%nat, two); (2%nat, one)] one 1);
    [lia | rewrite two_20; lia | reflexivity].
Defined.

Lemma ewma_slides_witness :
  (1 <= 1)%nat /\ Z.of_nat 1 <= 2 ^ 20 /\ is_zero (add one one) = false
  /\ exists out,
       ewma sample_power Numpy.sum [(0%nat, one); (1%nat, two); (2%nat, one); (3%nat, two)]
         one (Z.of_nat 1) = Ok out
       /\ ewma sample_power Numpy.sum [(1%nat, two); (2%nat, one); (3%nat, two)]
            one (Z.of_nat 1) = Ok (drop 1 out).
Proof.
  split; [lia|]. split; [rewrite two_20; lia|]. split; [reflexivity|].
  apply (ewma_slides sample_power Numpy.sum (0%nat, one)
           [(1%nat, two); (2%nat, one); (3%nat, two)] one 1);
    [lia | rewrite two_20; lia | reflexivity].
Defined.


End RecursiveLSFacts.

